(** * Document readers of RecDP: a shallow embedding of
      [pyrecdp/primitives/document/reader.py]

    The development follows the Python module top to bottom: the
    [Document] schema, [FileBaseReader.load] with its blank filter and
    its capitalisation merge, the four format adapters, the extension
    registry [_default_file_readers] and [read_from_directory].

    Conventions.
    - A Python [str] is a [string]; its characters are classified by the
      methods [str.isspace], [str.isalpha] and [str.isupper], which belong
      to the interpreter and are taken as the class [StrMethods].
    - A raised exception is the [Raise] case of [res]; code with
      observable calls (installer, progress bar, loaders) lives in the
      writer-and-exception monad [M], whose log lists the calls in order.
    - Dictionaries are [gmap]s, Python sets are [gset]s. *)

From Stdlib Require Import String Ascii List Lia.
From stdpp Require Import base option list strings gmap sets.

Local Open Scope string_scope.
Local Open Scope list_scope.

(** ** Exceptions and results *)

Inductive exn : Type :=
  | AssertionError
  | TypeError
  | IndexError
  | ValueError
  | LibraryError (msg : string).

Inductive res (A : Type) : Type :=
  | Ok (a : A)
  | Raise (e : exn).

Arguments Ok {A} a.
Arguments Raise {A} e.

Global Instance res_ret : MRet res := fun A a => Ok a.

Global Instance res_bind : MBind res := fun A B k m =>
  match m with
  | Ok a => k a
  | Raise e => Raise e
  end.

(** ** Interpreter-provided string methods *)

Class StrMethods : Type := {
  isspace : ascii -> bool;
  isalpha : ascii -> bool;
  isupper : ascii -> bool
}.

Definition LF : ascii := ascii_of_nat 10.
Definition SP : ascii := ascii_of_nat 32.

(** The two literals of the f-strings in [load]: a blank, and two line
    feeds followed by a blank. *)
Definition lit_sp : string := String SP EmptyString.
Definition lit_lf_lf_sp : string := String LF (String LF lit_sp).

(** ** The schema: [Document(text, metadata)] *)

Record Document : Type := mkDocument {
  text : string;
  metadata : gmap string string
}.

Definition Path : Type := string.

Section Str.
Context {SM : StrMethods}.

(** [str.strip()] without argument: leading, then trailing, white space
    goes. *)
Fixpoint lstrip (s : string) : string :=
  match s with
  | EmptyString => EmptyString
  | String c s' => if isspace c then lstrip s' else s
  end.

Fixpoint rstrip (s : string) : string :=
  match s with
  | EmptyString => EmptyString
  | String c s' =>
      match rstrip s' with
      | EmptyString => if isspace c then EmptyString else String c EmptyString
      | String c' r => String c (String c' r)
      end
  end.

Definition strip (s : string) : string := rstrip (lstrip s).

(** The lambda of line 57: the stripped text differs from the empty
    string. *)
Definition nonblank (d : Document) : bool :=
  if string_dec (strip (text d)) EmptyString then false else true.

Definition filter_nonblank (docs : list Document) : list Document :=
  List.filter nonblank docs.

(** [firstAlphaIsUppercase(word)].  The body indexes [doc.text], the
    loop variable of the enclosing [for doc in docs], while the bound of
    the [while] is [len(word)]; an index past the end of [doc.text]
    raises [IndexError].  [fuel] is [len(word) - i], the number of
    iterations the [while] has left. *)
Fixpoint firstAlpha_while (doc_text : string) (fuel i : nat) : res bool :=
  match fuel with
  | O => Ok false
  | S fuel' =>
      match String.get i doc_text with
      | None => Raise IndexError
      | Some char =>
          if isalpha char then Ok (isupper char)
          else firstAlpha_while doc_text fuel' (S i)
      end
  end.

Definition firstAlphaIsUppercase (doc : Document) (word : string) : res bool :=
  firstAlpha_while (text doc) (String.length word) 0.

(** The [for doc in docs] loop of the single-text branch, [acc] being
    the variable [text]. *)
Fixpoint merge_for (acc : string) (docs : list Document) : res string :=
  match docs with
  | [] => Ok acc
  | doc :: rest =>
      up ← firstAlphaIsUppercase doc (text doc);
      if (up : bool) then merge_for (acc +:+ lit_lf_lf_sp +:+ text doc) rest
      else merge_for (acc +:+ lit_sp +:+ text doc) rest
  end.
End Str.

(** ** [FileBaseReader] *)

(** An instance of a file based reader: the three attributes set by
    [__init__] and the abstract method [load_file]. *)
Record FileBaseReader : Type := mkReader {
  file : Path;
  single_text_per_document : bool;
  page_separator : string;
  load_file : Path -> res (list Document)
}.

(** [page_separator or '\n']: the empty string is falsy. *)
Definition or_newline (page_separator : string) : string :=
  match page_separator with
  | EmptyString => String LF EmptyString
  | _ => page_separator
  end.

Definition FileBaseReader_init (f : Path) (single : bool) (sep : string)
    (lf : Path -> res (list Document)) : FileBaseReader :=
  {| file := f; single_text_per_document := single;
     page_separator := or_newline sep; load_file := lf |}.

Definition get_metadata (r : FileBaseReader) : gmap string string :=
  {[ "source" := file r ]}.

Definition load {SM : StrMethods} (r : FileBaseReader) : res (list Document) :=
  docs ← load_file r (file r);
  let docs := filter_nonblank docs in
  if single_text_per_document r then
    txt ← merge_for EmptyString docs;
    Ok [ mkDocument txt (get_metadata r) ]
  else Ok docs.

(** ** External libraries and the platform *)

(** What [pypdf.PdfReader(file)] exposes to [PDFReader.load_file]: the
    pages, each with the outcome of its [extract_text()], and the page
    labels. *)
Record Pdf : Type := mkPdf {
  pdf_pages : list (res string);
  pdf_page_labels : list string
}.

(** The third-party extraction libraries.  Each call either returns or
    raises.  [image_to_string] stands for [Image.open], the conversion to
    RGB and [pytesseract.image_to_string]; a whisper model is its
    [transcribe] method, returning the keys [text] and [language]. *)
Class Libraries : Type := {
  pypdf_PdfReader : Path -> res Pdf;
  docx_Document : string -> res (list string);
  image_to_string : Path -> res string;
  whisper_load_model : string -> res (string -> res (string * string))
}.

(** The arguments that [read_from_directory] only hands on to
    [get_files]. *)
Record Filters : Type := mkFilters {
  glob : string;
  recursive : bool;
  exclude : option (list string);
  exclude_hidden : bool;
  required_exts : option (list string)
}.

(** [pathlib], [os.path] and the two helpers of [pyrecdp.core] that the
    module imports: [path_utils.get_files] and
    [import_utils.check_availability_and_install]. *)
Class Platform : Type := {
  Path_of : string -> Path;
  suffix : Path -> string;
  isfile : string -> bool;
  get_files : string -> Filters -> list Path;
  check_availability_and_install : string -> res unit
}.

(** ** Observable calls *)

Inductive reader_cls : Type := PDFReader | DocxReader | ImageReader | AudioReader.

Global Instance reader_cls_eq_dec : EqDecision reader_cls.
Proof. solve_decision. Defined.

Inductive event : Type :=
  | EvGetFiles (input_dir : string)
  | EvSetup (cls : reader_cls)
  | EvAptGet (pkg : string)
  | EvInstall (pkg : string)
  | EvCustomLoader (ext : string) (f : Path)
  | EvAdapter (cls : reader_cls) (f : Path)
  | EvWarning (ext : string)
  | EvTotal (n : nat)
  | EvUpdate
  | EvClose.

Global Instance event_eq_dec : EqDecision event.
Proof. solve_decision. Defined.

(** A computation that logs its calls and then returns or raises. *)
Record M (A : Type) : Type := Run {
  log : list event;
  outcome : res A
}.

Arguments Run {A} log outcome.
Arguments log {A} m.
Arguments outcome {A} m.

Global Instance M_ret : MRet M := fun A a => Run [] (Ok a).

Global Instance M_bind : MBind M := fun A B k m =>
  match outcome m with
  | Ok a => Run (log m ++ log (k a)) (outcome (k a))
  | Raise e => Run (log m) (Raise e)
  end.

Definition emit (e : event) : M unit := Run [e] (Ok tt).
Definition lift {A : Type} (r : res A) : M A := Run [] r.
Definition raise {A : Type} (e : exn) : M A := Run [] (Raise e).

(** [try: body finally: fin].  The [finally] suite runs on both exits;
    an exception of the body is re-raised after it unless the suite
    raises itself. *)
Definition try_finally {A : Type} (body : M A) (fin : M unit) : M A :=
  Run (log body ++ log fin)
      (match outcome fin with
       | Ok _ => outcome body
       | Raise e => Raise e
       end).

(** ** The format adapters *)

Section Adapters.
Context {LB : Libraries}.

Definition str_LF : string := String LF EmptyString.

(** One iteration of [for page in range(num_pages)]. *)
Definition PDFReader_page (file : Path) (pdf : Pdf) (page : nat) : res Document :=
  match pdf_pages pdf !! page with
  | None => Raise IndexError
  | Some extract_text =>
      page_text ← extract_text;
      match pdf_page_labels pdf !! page with
      | None => Raise IndexError
      | Some page_label =>
          Ok (mkDocument page_text
                {[ "page_label" := page_label; "source" := file ]})
      end
  end.

Definition PDFReader_load_file (file : Path) : res (list Document) :=
  pdf ← pypdf_PdfReader file;
  let num_pages := length (pdf_pages pdf) in
  mapM (PDFReader_page file pdf) (seq 0 num_pages).

Definition DocxReader_load_file (file : Path) : res (list Document) :=
  paragraphs ← docx_Document file;
  Ok (map (fun p => mkDocument p {[ "source" := file ]}) paragraphs).

Definition ImageReader_load_file (file : Path) : res (list Document) :=
  text_str ← image_to_string file;
  Ok [ mkDocument text_str {[ "source" := file ]} ].

Definition AudioReader_load_file (transcribe : string -> res (string * string))
    (file : Path) : res (list Document) :=
  result ← transcribe file;
  Ok [ mkDocument (fst result) {[ "source" := file; "language" := snd result ]} ].

(** The constructors; [**load_kwargs] of the PDF reader only reaches
    [pypdf.PdfReader] and [keep_image] is stored and never read. *)
Definition PDFReader_init (file : Path) (single : bool) (sep : string) : FileBaseReader :=
  FileBaseReader_init file single sep PDFReader_load_file.

Definition DocxReader_init (file : Path) (single : bool) (sep : string) : FileBaseReader :=
  FileBaseReader_init file single sep DocxReader_load_file.

Definition ImageReader_init (file : Path) (single : bool) (sep : string)
    (keep_image : bool) : FileBaseReader :=
  FileBaseReader_init file single sep ImageReader_load_file.

(** [AudioReader.__init__] loads the whisper model and may raise. *)
Definition AudioReader_init (file : Path) (single : bool) (sep : string)
    (model : string) : res FileBaseReader :=
  transcribe ← whisper_load_model model;
  Ok (FileBaseReader_init file single sep (AudioReader_load_file transcribe)).

(** [document_loader_cls(file_to_load)]: every other parameter takes
    its default. *)
Definition instantiate (cls : reader_cls) (file : Path) : res FileBaseReader :=
  match cls with
  | PDFReader => Ok (PDFReader_init file true str_LF)
  | DocxReader => Ok (DocxReader_init file true str_LF)
  | ImageReader => Ok (ImageReader_init file true str_LF false)
  | AudioReader => AudioReader_init file true str_LF "small"
  end.
End Adapters.

Definition system_requirements (cls : reader_cls) : list string :=
  match cls with
  | PDFReader => []
  | DocxReader => []
  | ImageReader => ["tesseract-ocr"]
  | AudioReader => ["ffmpeg"]
  end.

Definition requirements (cls : reader_cls) : list string :=
  match cls with
  | PDFReader => ["pypdf"]
  | DocxReader => ["python-docx"]
  | ImageReader => ["pillow"; "pytesseract"]
  | AudioReader => ["openai-whisper"]
  end.

Definition _default_file_readers : gmap string reader_cls :=
  list_to_map
    [ (".pdf", PDFReader); (".docx", DocxReader);
      (".jpg", ImageReader); (".jpeg", ImageReader); (".png", ImageReader);
      (".mp3", AudioReader); (".wav", AudioReader); (".flac", AudioReader) ].

(** [FileBaseReader.setup], a class method.  [os.system] returns the exit
    status and never raises. *)
Definition setup {PF : Platform} (cls : reader_cls) : M unit :=
  emit (EvSetup cls);;
  mapM (fun pkg => emit (EvAptGet pkg)) (system_requirements cls);;
  mapM (fun pkg => emit (EvInstall pkg);; lift (check_availability_and_install pkg))
       (requirements cls);;
  mret tt.

(** ** [read_from_directory] *)

(** An element of the returned list, [{'text': d.text, 'metadata':
    d.metadata}]. *)
Record OutDict : Type := mkOutDict {
  out_text : string;
  out_metadata : gmap string string
}.

Definition as_dict (d : Document) : OutDict :=
  mkOutDict (text d) (metadata d).

Section Orchestrator.
Context {SM : StrMethods} {LB : Libraries} {PF : Platform}.

(** [loaders and file_to_load.suffix in loaders], then
    [loaders[file_to_load.suffix]].  [None] and the empty dictionary are
    falsy, and the empty dictionary has no key.  The values are
    callables by the parameter's type, so the [assert] passes. *)
Definition custom_loader
    (loaders : option (gmap string (Path -> res (list Document))))
    (ext : string) : option (Path -> res (list Document)) :=
  match loaders with
  | None => None
  | Some d => d !! ext
  end.

(** The inner function [read_file(file_to_load, par)]. *)
Definition read_file
    (loaders : option (gmap string (Path -> res (list Document))))
    (file_to_load : Path) : M (list Document) :=
  try_finally
    (match custom_loader loaders (suffix file_to_load) with
     | Some document_loader =>
         emit (EvCustomLoader (suffix file_to_load) file_to_load);;
         lift (document_loader file_to_load)
     | None =>
         match _default_file_readers !! suffix file_to_load with
         | Some document_loader_cls =>
             emit (EvAdapter document_loader_cls file_to_load);;
             loader ← lift (instantiate document_loader_cls file_to_load);
             lift (load loader)
         | None =>
             emit (EvWarning (suffix file_to_load));;
             mret []
         end
     end)
    (emit EvUpdate).

(** Lines 235-251: the list [files_to_read] before it is made a set.
    A missing or empty [input_files] is falsy; iterating over a missing
    [input_dirs] raises [TypeError]. *)
Definition collect_files (input_dirs : option (string + list string))
    (input_files : option (list string)) (flt : Filters) : M (list Path) :=
  match input_files with
  | Some (f :: fs) => mret (map Path_of (List.filter isfile (f :: fs)))
  | _ =>
      match input_dirs with
      | None => raise TypeError
      | Some dirs =>
          let input_dirs := match dirs with inl d => [d] | inr ds => ds end in
          per_dir ← mapM (fun input_dir =>
                            emit (EvGetFiles input_dir);;
                            mret (get_files input_dir flt)) input_dirs;
          mret (concat per_dir)
      end
  end.

(** [list(set(files_to_read))]. *)
Definition dedup (files : list Path) : list Path :=
  elements (list_to_set files : gset Path).

Definition resolve_files (input_dirs : option (string + list string))
    (input_files : option (list string)) (flt : Filters) : M (list Path) :=
  files ← collect_files input_dirs input_files flt;
  mret (dedup files).

Definition install_reader_requirements (files_to_read : list Path) : M unit :=
  let file_exts : gset string := list_to_set (map suffix files_to_read) in
  mapM (fun file_ext =>
          match _default_file_readers !! file_ext with
          | Some cls => setup cls
          | None => mret tt
          end) (elements file_exts);;
  mret tt.

(** [ThreadPoolExecutor(max_concurrency)] refuses a bound that is not
    positive. *)
Definition ThreadPoolExecutor (max_workers : option Z) : M unit :=
  match max_workers with
  | Some n => if decide (n <= 0)%Z then raise ValueError else mret tt
  | None => mret tt
  end.

(** Lines 253-281.  [executor.map] hands the results back in the order
    of [files_to_read] and re-raises the exception of the first file, in
    that order, whose task raised; the tasks are taken here in submission
    order, the tasks behind a raising one counting as cancelled. *)
Definition dispatch (max_concurrency : option Z)
    (loaders : option (gmap string (Path -> res (list Document))))
    (files_to_read : list Path) : M (list OutDict) :=
  emit (EvTotal (length files_to_read));;
  try_finally
    (ThreadPoolExecutor max_concurrency;;
     results ← mapM (read_file loaders) files_to_read;
     mret (map as_dict (concat results)))
    (emit EvClose).

Definition read_from_directory (input_dirs : option (string + list string))
    (input_files : option (list string)) (flt : Filters)
    (max_concurrency : option Z)
    (loaders : option (gmap string (Path -> res (list Document))))
    : M (list OutDict) :=
  files_to_read ← resolve_files input_dirs input_files flt;
  if decide (length files_to_read = 0) then mret []
  else
    install_reader_requirements files_to_read;;
    dispatch max_concurrency loaders files_to_read.
End Orchestrator.

(** ** A concrete interpreter, library set and platform

    Used for the scenarios and the concrete runs below. *)

(** Python's classification of the code points below 256. *)
Definition latin1_isspace (c : ascii) : bool :=
  let n := nat_of_ascii c in
  (((9 <=? n) && (n <=? 13)) || ((28 <=? n) && (n <=? 32))
  || (n =? 133) || (n =? 160))%nat.

Definition latin1_isupper (c : ascii) : bool :=
  let n := nat_of_ascii c in
  (((65 <=? n) && (n <=? 90)) || ((192 <=? n) && (n <=? 214))
  || ((216 <=? n) && (n <=? 222)))%nat.

Definition latin1_isalpha (c : ascii) : bool :=
  let n := nat_of_ascii c in
  (((65 <=? n) && (n <=? 90)) || ((97 <=? n) && (n <=? 122))
  || (n =? 170) || (n =? 181) || (n =? 186)
  || ((192 <=? n) && (n <=? 214)) || ((216 <=? n) && (n <=? 246))
  || (248 <=? n))%nat.

Definition latin1 : StrMethods :=
  {| isspace := latin1_isspace; isalpha := latin1_isalpha; isupper := latin1_isupper |}.

(** [PurePath.suffix]: the part of the final component from its last dot
    on, unless that dot is the first or the last character of the
    component. *)
Fixpoint after_last (sep : ascii) (s : string) : option string :=
  match s with
  | EmptyString => None
  | String c s' =>
      match after_last sep s' with
      | Some r => Some r
      | None => if Ascii.eqb c sep then Some s' else None
      end
  end.

Definition path_name (p : string) : string :=
  default p (after_last "/" p).

Definition path_suffix (p : string) : string :=
  let name := path_name p in
  match after_last "." name with
  | None => EmptyString
  | Some ext =>
      if ((String.length ext =? 0) || (String.length name =? S (String.length ext)))%nat
      then EmptyString else String "." ext
  end.

Definition demo_files : list string :=
  [ "hello.pdf"; "blank.pdf"; "bad.pdf"; "a.jpg"; "b.png"; "notes.txt" ].

Definition demo_platform : Platform :=
  {| Path_of := fun f => f;
     suffix := path_suffix;
     isfile := fun f => bool_decide (f ∈ demo_files);
     get_files := fun input_dir _ =>
       if String.eqb input_dir "docs" then ["hello.pdf"; "notes.txt"] else [];
     check_availability_and_install := fun _ => Ok tt |}.

Definition hello_pdf : Pdf :=
  mkPdf [Ok "Hello world."; Ok "continued text"] ["1"; "2"].

Definition blank_pdf : Pdf :=
  mkPdf [Ok "   "; Ok EmptyString] ["i"; "ii"].

Definition demo_libraries : Libraries :=
  {| pypdf_PdfReader := fun f =>
       if String.eqb f "hello.pdf" then Ok hello_pdf
       else if String.eqb f "blank.pdf" then Ok blank_pdf
       else Raise (LibraryError "PdfReadError");
     docx_Document := fun f => Raise (LibraryError "PackageNotFoundError");
     image_to_string := fun f => Ok ("Scan of " +:+ f);
     whisper_load_model := fun _ => Ok (fun f => Ok ("speech", "en")) |}.

Definition no_filters : Filters :=
  mkFilters "**/[!.]*" false None true None.

(** A reader configured with the separator ["|"], over two units. *)
Definition two_units : list Document :=
  [ mkDocument "Hello" ∅; mkDocument "world" ∅ ].

Definition bar_reader : FileBaseReader :=
  FileBaseReader_init "notes.docx" true "|" (fun _ => Ok two_units).

(** A custom loader for PDF files. *)
Definition pdf_override : gmap string (Path -> res (list Document)) :=
  {[ ".pdf" := fun p : Path => Ok [ mkDocument "custom" {[ "source" := p ]} ] ]}.

(** ** Specification-side notions

    These follow the wording of the specification, not the code; the
    theorems below compare them with the definitions above. *)

Section SpecSide.
Context {SM : StrMethods}.

(** A text that consists of white space only (the empty text included). *)
Fixpoint all_space (s : string) : bool :=
  match s with
  | EmptyString => true
  | String c s' => isspace c && all_space s'
  end.

(** The first alphabetic character of a text, if there is one. *)
Fixpoint first_alpha (s : string) : option ascii :=
  match s with
  | EmptyString => None
  | String c s' => if isalpha c then Some c else first_alpha s'
  end.

(** A unit starts a paragraph when its first alphabetic character is
    upper case; a unit without alphabetic character does not. *)
Definition starts_paragraph (s : string) : bool :=
  match first_alpha s with
  | Some c => isupper c
  | None => false
  end.

(** The Merge Policy as section 4.3 words it, for a configured
    separator: two line feeds and the separator before a unit that starts
    a paragraph, the separator alone before any other unit. *)
Fixpoint merge_policy_spec (page_separator : string) (docs : list Document) : string :=
  match docs with
  | [] => EmptyString
  | d :: rest =>
      (if starts_paragraph (text d)
       then String LF (String LF page_separator) else page_separator)
      +:+ text d +:+ merge_policy_spec page_separator rest
  end.
End SpecSide.

(** Number of calls of [cls.setup()] in a log. *)
Definition setup_runs (cls : reader_cls) (l : list event) : nat :=
  count_occ event_eq_dec l (EvSetup cls).

(** The directories a log shows as traversed. *)
Definition traversed (l : list event) : list string :=
  omap (fun e => match e with EvGetFiles d => Some d | _ => None end) l.

(** The files a log shows as handed to a default adapter. *)
Definition adapter_files (l : list event) : list Path :=
  omap (fun e => match e with EvAdapter _ f => Some f | _ => None end) l.

(** The files a log shows as handed to a loader, custom or default. *)
Definition ingested (l : list event) : list Path :=
  omap (fun e => match e with
                 | EvCustomLoader _ f | EvAdapter _ f => Some f
                 | _ => None
                 end) l.

(** ** [read_youtube_audio] *)

(** What [read_youtube_audio] needs from outside: [os.path.isdir], the
    directory [tempfile.mkdtemp()] creates, the blobs that
    [YoutubeAudioLoader(urls, save_dir).yield_blobs()] yields (each as
    [str(blob.path)], or the exception the generator raises at that
    point), and [whisper.load_model]. *)
Class AudioPlatform : Type := {
  isdir : string -> bool;
  mkdtemp : string;
  yield_blobs : list string -> string -> list (res string);
  whisper_model : option string -> res (string -> res (string * string))
}.

Inductive yt_event : Type :=
  | YtMkdtemp (dir : string)
  | YtDownload (urls : list string) (save_dir : string)
  | YtTranscribe (audio_path : string)
  | YtRmtree (dir : string).

Global Instance yt_event_eq_dec : EqDecision yt_event.
Proof. solve_decision. Defined.

(** The logging monad over the calls of the YouTube path. *)
Record Y (A : Type) : Type := YRun {
  ylog : list yt_event;
  yout : res A
}.

Arguments YRun {A} ylog yout.
Arguments ylog {A} _.
Arguments yout {A} _.

Global Instance Y_ret : MRet Y := fun A a => YRun [] (Ok a).

Global Instance Y_bind : MBind Y := fun A B k m =>
  match yout m with
  | Ok a => YRun (ylog m ++ ylog (k a)) (yout (k a))
  | Raise e => YRun (ylog m) (Raise e)
  end.

Definition yemit (e : yt_event) : Y unit := YRun [e] (Ok tt).
Definition ylift {A : Type} (r : res A) : Y A := YRun [] r.

Definition ytry_finally {A : Type} (body : Y A) (fin : Y unit) : Y A :=
  YRun (ylog body ++ ylog fin)
       (match yout fin with
        | Ok _ => yout body
        | Raise e => Raise e
        end).

(** [d[k] = v] on a dictionary in insertion order: a present key keeps
    its place and takes the new value, a new key goes to the end. *)
Fixpoint dict_set (k v : string) (d : list (string * string)) : list (string * string) :=
  match d with
  | [] => [(k, v)]
  | (k', v') :: d' =>
      if String.eqb k' k then (k', v) :: d' else (k', v') :: dict_set k v d'
  end.

(** [for url, blob in zip(urls[::-1], loader.yield_blobs())]: [zip] asks
    its first argument first and stops when either is exhausted; an
    exception of the generator propagates. *)
Fixpoint zip_for (urls_rev : list string) (blobs : list (res string))
    (audio_paths : list (string * string)) : res (list (string * string)) :=
  match urls_rev, blobs with
  | [], _ => Ok audio_paths
  | _ :: _, [] => Ok audio_paths
  | _ :: _, Raise e :: _ => Raise e
  | url :: us, Ok path :: bs => zip_for us bs (dict_set url path audio_paths)
  end.

Section Youtube.
Context {AP : AudioPlatform}.

(** [for url, audio_path in audio_paths.items()]. *)
Definition transcribe_item (model : string -> res (string * string))
    (item : string * string) : Y OutDict :=
  yemit (YtTranscribe (snd item));;
  result ← ylift (model (snd item));
  mret (mkOutDict (fst result)
          {[ "source" := fst item; "language" := snd result ]}).

(** The body of the [try]. The generator starts the download when [zip]
    first asks it for a blob, which it does not for an empty [urls]. *)
Definition youtube_body (urls : list string) (save_dir : string)
    (model_name : option string) : Y (list OutDict) :=
  match urls with
  | [] => mret tt
  | _ :: _ => yemit (YtDownload urls save_dir)
  end;;
  audio_paths ← ylift (zip_for (rev urls) (yield_blobs urls save_dir) []);
  model ← ylift (whisper_model model_name);
  mapM (transcribe_item model) audio_paths.

Definition read_youtube_audio (url : string + list string)
    (save_dir : option string) (model_name : option string) : Y (list OutDict) :=
  let urls := match url with inl u => [u] | inr us => us end in
  let use_temp_dir :=
    match save_dir with
    | None => true
    | Some dir => negb (isdir dir)
    end in
  (if use_temp_dir then yemit (YtMkdtemp mkdtemp) else mret tt);;
  let save_dir := if use_temp_dir then mkdtemp else default mkdtemp save_dir in
  ytry_finally (youtube_body urls save_dir model_name)
               (if use_temp_dir then yemit (YtRmtree save_dir) else mret tt).
End Youtube.

(** ** [RenameFeatureGenerator] ([generators/name.py]) *)

(** A field of the schema handed to [fit_prepare]: its name and the rest
    of it, which the generator does not look at. *)
Record SchemaField : Type := mkField {
  field_name : string;
  field_rest : string
}.

(** ['.' in name]. *)
Fixpoint contains_dot (name : string) : bool :=
  match name with
  | EmptyString => false
  | String c s => Ascii.eqb c "." || contains_dot s
  end.

(** [name.replace('.', '__')]. *)
Fixpoint replace_dots (name : string) : string :=
  match name with
  | EmptyString => EmptyString
  | String c s =>
      if Ascii.eqb c "." then String "_" (String "_" (replace_dots s))
      else String c (replace_dots s)
  end.

(** The first loop of [fit_prepare], over the attribute [self.renamed]
    and the local [is_useful]. *)
Fixpoint fit_collect (renamed : gmap string string) (is_useful : bool)
    (pa_schema : list SchemaField) : gmap string string * bool :=
  match pa_schema with
  | [] => (renamed, is_useful)
  | pa_field :: rest =>
      if contains_dot (field_name pa_field)
      then fit_collect
             (<[ field_name pa_field := replace_dots (field_name pa_field) ]> renamed)
             true rest
      else fit_collect renamed is_useful rest
  end.

(** One iteration of the second loop: the field, with its name replaced
    when it is a key of [self.renamed].  The loop assigns to the field
    objects of [pa_schema] themselves; fields are values here, which is
    the same as long as no new name is itself a key (see [renamed_ok]). *)
Definition fit_rename (renamed : gmap string string) (pa_field : SchemaField) : SchemaField :=
  match renamed !! field_name pa_field with
  | Some new_name => mkField new_name (field_rest pa_field)
  | None => pa_field
  end.

(** [fit_prepare(pa_schema)], from the value of [self.renamed] before the
    call to its value after it, the returned schema and [is_useful]. *)
Definition fit_prepare (renamed : gmap string string) (pa_schema : list SchemaField)
    : gmap string string * (list SchemaField * bool) :=
  let '(renamed', is_useful) := fit_collect renamed false pa_schema in
  (renamed', (map (fit_rename renamed') pa_schema, is_useful)).

(** [rename_feature(df)], that is [df.rename(columns=self.renamed)], on
    the column labels of the frame: a label that is a key is replaced,
    any other label stays. *)
Definition rename_feature (renamed : gmap string string) (columns : list string) : list string :=
  map (fun c => default c (renamed !! c)) columns.

(** The shape [self.renamed] has at every point of the life of a
    generator: it starts empty and only [fit_prepare] writes to it, always
    a name with a dot as key and that name with its dots replaced as
    value. *)
Definition renamed_ok (renamed : gmap string string) : Prop :=
  forall k v, renamed !! k = Some v -> contains_dot k = true /\ v = replace_dots k.

(** The [source] entry of the metadata of a returned dictionary. *)
Definition out_source (row : OutDict) : option string :=
  out_metadata row !! "source".

(** A concrete audio platform: the directory [audio] exists, every URL
    but [bad] is downloaded to a file named after it. *)
Definition demo_audio : AudioPlatform :=
  {| isdir := fun d => String.eqb d "audio";
     mkdtemp := "/tmp/tmpyt";
     yield_blobs := fun urls save_dir =>
       map (fun u => if String.eqb u "bad" then Raise (LibraryError "DownloadError")
                     else Ok (save_dir +:+ "/" +:+ u +:+ ".m4a")) urls;
     whisper_model := fun _ => Ok (fun p => Ok ("speech in " +:+ p, "en")) |}.

Definition demo_schema : list SchemaField :=
  [ mkField "user.id" "int64"; mkField "age" "int32"; mkField "a.b.c" "string" ].

(** A platform on which the library [pypdf] cannot be installed. *)
Definition offline_platform : Platform :=
  {| Path_of := fun f => f;
     suffix := path_suffix;
     isfile := fun f => bool_decide (f ∈ demo_files);
     get_files := fun _ _ => [];
     check_availability_and_install := fun pkg =>
       if String.eqb pkg "pypdf" then Raise (LibraryError "pip") else Ok tt |}.

(** Readers over fixed units, in both modes. *)
Definition unit_A : Document := mkDocument "Alpha" {[ "source" := "mem" ]}.
Definition unit_b : Document := mkDocument "beta" {[ "source" := "mem" ]}.
Definition unit_blank : Document := mkDocument "  " {[ "source" := "mem" ]}.

Definition mem_reader (single : bool) (units : list Document) : FileBaseReader :=
  FileBaseReader_init "mem" single "|" (fun _ => Ok units).

(** * Theorems *)

(** ** Strings *)

Lemma append_cons (c : ascii) (s t : string) :
  String c s +:+ t = String c (s +:+ t).
Proof. reflexivity. Qed.

Lemma append_nil_r (s : string) : s +:+ EmptyString = s.
Proof. induction s as [|c s IH]; [done|]. by rewrite append_cons, IH. Qed.

Lemma append_assoc (s t u : string) : (s +:+ t) +:+ u = s +:+ (t +:+ u).
Proof. induction s as [|c s IH]; [done|]. by rewrite !append_cons, IH. Qed.

Lemma length_append (s t : string) :
  String.length (s +:+ t) = String.length s + String.length t.
Proof. induction s as [|c s IH]; [done|]. rewrite append_cons. simpl. by rewrite IH. Qed.

Lemma get_append_length (pre : string) (c : ascii) (s : string) :
  String.get (String.length pre) (pre +:+ String c s) = Some c.
Proof. induction pre as [|a pre IH]; [done|]. rewrite append_cons. simpl. exact IH. Qed.

Section StrTheory.
Context {SM : StrMethods}.

Lemma all_space_append (s t : string) :
  all_space (s +:+ t) = all_space s && all_space t.
Proof.
  induction s as [|c s IH]; [done|].
  rewrite append_cons. simpl. rewrite IH. by rewrite andb_assoc.
Qed.

Lemma lstrip_all_space (s : string) : all_space s = true -> lstrip s = EmptyString.
Proof.
  induction s as [|c s IH]; simpl; [done|].
  intros [Hc Hs]%andb_prop. rewrite Hc. auto.
Qed.

Lemma lstrip_not_all_space (s : string) :
  all_space s = false ->
  exists c s', lstrip s = String c s' /\ isspace c = false.
Proof.
  induction s as [|c s IH]; simpl; [done|].
  destruct (isspace c) eqn:Hc; simpl; eauto.
Qed.

Lemma rstrip_head_kept (c : ascii) (s : string) :
  isspace c = false -> rstrip (String c s) <> EmptyString.
Proof. intros Hc. simpl. rewrite Hc. by destruct (rstrip s). Qed.

(** [s.strip()] is empty exactly for the texts made of white space. *)
Lemma strip_empty_iff (s : string) :
  strip s = EmptyString <-> all_space s = true.
Proof.
  unfold strip. split.
  - intros Hs. destruct (all_space s) eqn:Ha; [done|].
    destruct (lstrip_not_all_space s Ha) as (c & s' & Hl & Hc).
    rewrite Hl in Hs. by apply rstrip_head_kept in Hs.
  - intros Ha. by rewrite lstrip_all_space.
Qed.

Lemma nonblank_all_space (d : Document) :
  nonblank d = negb (all_space (text d)).
Proof.
  unfold nonblank. destruct (string_dec _ _) as [He|Hne].
  - apply strip_empty_iff in He. by rewrite He.
  - destruct (all_space (text d)) eqn:Ha; [|done].
    apply strip_empty_iff in Ha. contradiction.
Qed.
End StrTheory.

(** ** [FileBaseReader.load] *)

Section LoadTheory.
Context {SM : StrMethods}.

(** The [while] loop, started where [doc.text] continues with [s], with
    [len(s)] iterations left, finds the first alphabetic character of
    [s]; it never indexes past the end. *)
Lemma firstAlpha_while_spec (s pre : string) :
  firstAlpha_while (pre +:+ s) (String.length s) (String.length pre)
  = Ok (starts_paragraph s).
Proof.
  revert pre. induction s as [|c s IH]; intros pre; [done|].
  cbn [String.length firstAlpha_while]. rewrite get_append_length.
  unfold starts_paragraph. cbn [first_alpha].
  destruct (isalpha c); [done|].
  specialize (IH (pre +:+ String c EmptyString)).
  rewrite append_assoc, length_append in IH. simpl in IH.
  rewrite Nat.add_1_r in IH. exact IH.
Qed.

Lemma firstAlphaIsUppercase_spec (doc : Document) :
  firstAlphaIsUppercase doc (text doc) = Ok (starts_paragraph (text doc)).
Proof. exact (firstAlpha_while_spec (text doc) EmptyString). Qed.

(** The loop of [load] is the Merge Policy with a blank as separator. *)
Lemma merge_for_spec (docs : list Document) (acc : string) :
  merge_for acc docs = Ok (acc +:+ merge_policy_spec lit_sp docs).
Proof.
  revert acc. induction docs as [|d docs IH]; intros acc.
  - simpl. by rewrite append_nil_r.
  - cbn [merge_for merge_policy_spec]. rewrite firstAlphaIsUppercase_spec.
    cbn [mbind res_bind]. destruct (starts_paragraph (text d)); rewrite IH;
      by rewrite !append_assoc.
Qed.

Lemma load_unfold (r : FileBaseReader) (docs : list Document) :
  load_file r (file r) = Ok docs ->
  load r =
    if single_text_per_document r
    then Ok [ mkDocument (merge_policy_spec lit_sp (filter_nonblank docs))
                         (get_metadata r) ]
    else Ok (filter_nonblank docs).
Proof.
  intros Hlf. unfold load. rewrite Hlf. cbn [mbind res_bind].
  destruct (single_text_per_document r); [|done].
  by rewrite merge_for_spec.
Qed.

Lemma load_raises (r : FileBaseReader) (e : exn) :
  load_file r (file r) = Raise e -> load r = Raise e.
Proof. intros Hlf. unfold load. by rewrite Hlf. Qed.

Lemma filter_nonblank_Forall (docs : list Document) :
  Forall (fun d => strip (text d) <> EmptyString) (filter_nonblank docs).
Proof.
  apply List.Forall_forall. intros d [_ Hd]%List.filter_In.
  rewrite nonblank_all_space in Hd. intros He%strip_empty_iff.
  by rewrite He in Hd.
Qed.

(** A merged text is empty when there is no unit and has a character
    that is no white space otherwise. *)
Lemma merge_policy_spec_text (sep : string) (docs : list Document) :
  Forall (fun d => strip (text d) <> EmptyString) docs ->
  match docs with
  | [] => merge_policy_spec sep docs = EmptyString
  | _ :: _ => strip (merge_policy_spec sep docs) <> EmptyString
  end.
Proof.
  destruct docs as [|d rest]; [done|].
  intros Hd%Forall_inv He. apply Hd.
  apply strip_empty_iff in He. apply strip_empty_iff.
  cbn [merge_policy_spec] in He.
  rewrite !all_space_append in He.
  apply andb_prop in He as [_ He]. by apply andb_prop in He as [He _].
Qed.

(** C9: filtering a list of Records on non-blank text a second time
    changes nothing. *)
Theorem filter_nonblank_idempotent (docs : list Document) :
  filter_nonblank (filter_nonblank docs) = filter_nonblank docs.
Proof.
  unfold filter_nonblank. induction docs as [|d docs IH]; [done|].
  simpl. destruct (nonblank d) eqn:Hd; [|exact IH].
  simpl. rewrite Hd. by f_equal.
Qed.

(** C10: with [single_text_per_document=True], whenever [load_file]
    returns, [load] returns exactly one Record, whose metadata is
    [{source: path}]; if no unit survives the filter (in particular if
    [load_file] returned no unit at all) its text is the empty string. *)
Theorem load_single_exactly_one (r : FileBaseReader) (docs : list Document) :
  single_text_per_document r = true ->
  load_file r (file r) = Ok docs ->
  exists d : Document,
    load r = Ok [d] /\
    metadata d = {[ "source" := file r ]} /\
    (filter_nonblank docs = [] -> text d = EmptyString).
Proof.
  intros Hs Hlf. rewrite (load_unfold r docs Hlf), Hs.
  eexists. split; [reflexivity|]. split; [reflexivity|].
  intros Hnil. simpl. by rewrite Hnil.
Qed.
End LoadTheory.

(** ** The monad [M] *)

Section MonadTheory.
Context {A B : Type}.

Lemma outcome_bind (m : M A) (k : A -> M B) :
  outcome (m ≫= k) =
    match outcome m with
    | Ok a => outcome (k a)
    | Raise e => Raise e
    end.
Proof. unfold mbind, M_bind. by destruct (outcome m). Qed.

Lemma log_bind (m : M A) (k : A -> M B) :
  log (m ≫= k) =
    match outcome m with
    | Ok a => log m ++ log (k a)
    | Raise _ => log m
    end.
Proof. unfold mbind, M_bind. by destruct (outcome m). Qed.

Lemma outcome_bind_Ok (m : M A) (k : A -> M B) (a : A) :
  outcome m = Ok a -> outcome (m ≫= k) = outcome (k a).
Proof. intros H. by rewrite outcome_bind, H. Qed.

Lemma outcome_bind_inv (m : M A) (k : A -> M B) (b : B) :
  outcome (m ≫= k) = Ok b ->
  exists a, outcome m = Ok a /\ outcome (k a) = Ok b.
Proof. rewrite outcome_bind. destruct (outcome m); [eauto|done]. Qed.

(** A property of events that holds along both parts of a sequence holds
    along the sequence. *)
Lemma Forall_log_bind (P : event -> Prop) (m : M A) (k : A -> M B) :
  Forall P (log m) -> (forall a, Forall P (log (k a))) ->
  Forall P (log (m ≫= k)).
Proof.
  intros Hm Hk. rewrite log_bind. destruct (outcome m); [|done].
  apply Forall_app; auto.
Qed.

End MonadTheory.

Section MapMTheory.
Context {A B : Type}.

Lemma outcome_mapM_Ok (f : A -> M B) (l : list A) (rs : list B) :
  outcome (mapM f l) = Ok rs ->
  Forall2 (fun x r => outcome (f x) = Ok r) l rs.
Proof.
  revert rs. induction l as [|x l IH]; intros rs; simpl.
  - intros [= <-]. constructor.
  - intros (y & Hy & H)%outcome_bind_inv.
    apply outcome_bind_inv in H as (k & Hk & H).
    injection H as <-. constructor; auto.
Qed.

Lemma log_mapM_Ok (f : A -> M B) (l : list A) (rs : list B) :
  outcome (mapM f l) = Ok rs ->
  log (mapM f l) = concat (map (fun x => log (f x)) l).
Proof.
  revert rs. induction l as [|x l IH]; intros rs; simpl; [done|].
  intros (y & Hy & H)%outcome_bind_inv.
  apply outcome_bind_inv in H as (k & Hk & H).
  rewrite log_bind, Hy, log_bind, Hk. simpl.
  rewrite app_nil_r. f_equal. eauto.
Qed.

(** [mapM] raises the exception of the only element that raises. *)
Lemma outcome_mapM_Raise `{EqDecision A} (f : A -> M B) (l : list A) (x : A) (e : exn) :
  x ∈ l ->
  outcome (f x) = Raise e ->
  (forall y, y ∈ l -> y <> x -> exists r, outcome (f y) = Ok r) ->
  outcome (mapM f l) = Raise e.
Proof.
  intros Hx He Hothers. induction l as [|y l IH]; [by apply elem_of_nil in Hx|].
  simpl. rewrite outcome_bind.
  destruct (outcome (f y)) as [r|e'] eqn:Hy.
  - assert (Hne : y <> x) by (intros ->; congruence).
    apply elem_of_cons in Hx as [->|Hx]; [done|].
    rewrite outcome_bind, IH; [done|done|].
    intros z Hz. apply Hothers. by apply elem_of_cons; right.
  - destruct (decide (y = x)) as [->|Hne]; [congruence|].
    destruct (Hothers y) as [r Hr]; [by apply elem_of_cons; left|done|congruence].
Qed.

Lemma Forall_log_mapM (P : event -> Prop) (f : A -> M B) (l : list A) :
  (forall x, x ∈ l -> Forall P (log (f x))) -> Forall P (log (mapM f l)).
Proof.
  induction l as [|x l IH]; intros Hf; simpl; [constructor|].
  apply Forall_log_bind; [apply Hf; by apply elem_of_cons; left|].
  intros y. apply Forall_log_bind; [|intros; constructor].
  apply IH. intros z Hz. apply Hf. by apply elem_of_cons; right.
Qed.
End MapMTheory.

Lemma Forall_log_try_finally {A : Type} (P : event -> Prop) (body : M A) (fin : M unit) :
  Forall P (log body) -> Forall P (log fin) -> Forall P (log (try_finally body fin)).
Proof. intros. simpl. apply Forall_app; auto. Qed.

Lemma outcome_try_finally_emit {A : Type} (body : M A) (e : event) :
  outcome (try_finally body (emit e)) = outcome body.
Proof. reflexivity. Qed.

Lemma Forall_log_emit (P : event -> Prop) (e : event) :
  P e -> Forall P (log (emit e)).
Proof. intros. by constructor. Qed.

Lemma Forall_log_silent {A : Type} (P : event -> Prop) (r : res A) :
  Forall P (log (Run [] r)).
Proof. constructor. Qed.

Lemma log_emit_bind {A : Type} (e : event) (k : unit -> M A) :
  log (emit e ≫= k) = e :: log (k tt).
Proof. reflexivity. Qed.

(** Splits a goal [Forall P (log m)] along the structure of [m]. *)
Ltac log_inv :=
  repeat first
    [ apply Forall_log_bind
    | apply Forall_log_try_finally
    | apply Forall_log_mapM
    | apply Forall_log_emit
    | apply Forall_log_silent
    | progress intros ].

Lemma length_filter_Permutation {A : Type} (f : A -> bool) (l l' : list A) :
  l ≡ₚ l' -> length (List.filter f l) = length (List.filter f l').
Proof.
  induction 1 as [|x l l' _ IH|x y l|l l' l'' _ IH1 _ IH2]; simpl.
  - done.
  - destruct (f x); simpl; by rewrite IH.
  - destruct (f x), (f y); reflexivity.
  - by rewrite IH1.
Qed.

(** ** The installer *)

Section InstallTheory.
Context {PF : Platform}.

Lemma Forall_log_setup (P : event -> Prop) (cls : reader_cls) :
  P (EvSetup cls) -> (forall pkg, P (EvAptGet pkg)) -> (forall pkg, P (EvInstall pkg)) ->
  Forall P (log (setup cls)).
Proof. intros H1 H2 H3. unfold setup, lift, mret, M_ret. log_inv; auto. Qed.

Lemma Forall_log_install (P : event -> Prop) (files : list Path) :
  (forall cls, P (EvSetup cls)) -> (forall pkg, P (EvAptGet pkg)) ->
  (forall pkg, P (EvInstall pkg)) ->
  Forall P (log (install_reader_requirements files)).
Proof.
  intros H1 H2 H3. unfold install_reader_requirements. log_inv.
  destruct (_default_file_readers !! _); [by apply Forall_log_setup|].
  apply Forall_log_silent.
Qed.

(** One call of [cls'.setup()] is one run of the installer of [cls'] and
    of no other class, whether or not an installation step raises. *)
Lemma setup_runs_setup (cls cls' : reader_cls) :
  setup_runs cls (log (setup cls')) = if decide (cls' = cls) then 1 else 0.
Proof.
  assert (Htail : Forall (fun e => e <> EvSetup cls)
            (log (mapM (fun pkg => emit (EvAptGet pkg)) (system_requirements cls');;
                  mapM (fun pkg => emit (EvInstall pkg);;
                                   lift (check_availability_and_install pkg))
                    (requirements cls');; mret tt))).
  { unfold lift, mret, M_ret. log_inv; done. }
  unfold setup. rewrite log_emit_bind. unfold setup_runs. cbn [count_occ].
  rewrite (proj1 (count_occ_not_In event_eq_dec _ (EvSetup cls))).
  - destruct (decide (cls' = cls)) as [->|Hne'];
      destruct (event_eq_dec _ _); congruence.
  - intros Hin. by eapply List.Forall_forall in Htail; [|exact Hin].
Qed.

Lemma setup_runs_app (cls : reader_cls) (l1 l2 : list event) :
  setup_runs cls (l1 ++ l2) = setup_runs cls l1 + setup_runs cls l2.
Proof. apply count_occ_app. Qed.

(** The runs of [cls.setup()] along the extension loop, when no
    installation step raises: one for every extension of the loop that is
    registered to [cls]. *)
Lemma setup_runs_exts (cls : reader_cls) (exts : list string) (rs : list unit) :
  let step := fun file_ext : string =>
                match _default_file_readers !! file_ext with
                | Some c => setup c
                | None => mret tt
                end in
  outcome (mapM step exts) = Ok rs ->
  setup_runs cls (log (mapM step exts))
  = length (List.filter
              (fun ext => bool_decide (_default_file_readers !! ext = Some cls)) exts).
Proof.
  intros step Hok. rewrite (log_mapM_Ok _ _ _ Hok). clear Hok rs.
  induction exts as [|ext exts IH]; [done|].
  cbn [map concat List.filter]. rewrite setup_runs_app, IH. unfold step at 1.
  destruct (_default_file_readers !! ext) as [c|] eqn:Hreg.
  - rewrite setup_runs_setup. destruct (decide (c = cls)) as [->|Hne].
    + by rewrite bool_decide_eq_true_2.
    + rewrite bool_decide_eq_false_2; [done|]. congruence.
  - by rewrite bool_decide_eq_false_2.
Qed.

Lemma elements_list_to_set_remove_dups (l : list string) :
  elements (list_to_set l : gset string) ≡ₚ remove_dups l.
Proof.
  assert (Heq : (list_to_set l : gset string) = list_to_set (remove_dups l)).
  { apply set_eq. intros x. rewrite !elem_of_list_to_set.
    by rewrite elem_of_remove_dups. }
  rewrite Heq. apply elements_list_to_set, NoDup_remove_dups.
Qed.

(** C4, as the code has it: when the installation raises nothing, the
    set-up of an adapter class runs once for every distinct extension of
    the file set that is registered to that class, however many files
    carry the extension. *)
Theorem setup_once_per_extension (files_to_read : list Path) (cls : reader_cls) :
  outcome (install_reader_requirements files_to_read) = Ok tt ->
  setup_runs cls (log (install_reader_requirements files_to_read))
  = length (List.filter
              (fun ext => bool_decide (_default_file_readers !! ext = Some cls))
              (remove_dups (map suffix files_to_read))).
Proof.
  unfold install_reader_requirements. intros Hok.
  apply outcome_bind_inv in Hok as (rs & Hrs & _).
  rewrite log_bind, Hrs. cbn [log mret M_ret]. rewrite app_nil_r.
  rewrite (setup_runs_exts cls _ rs Hrs).
  apply length_filter_Permutation, elements_list_to_set_remove_dups.
Qed.
End InstallTheory.

(** ** [read_file] and the dispatch *)

Section DispatchTheory.
Context {SM : StrMethods} {LB : Libraries} {PF : Platform}.

Lemma instantiate_defaults (cls : reader_cls) (f : Path) (r : FileBaseReader) :
  instantiate cls f = Ok r -> file r = f /\ single_text_per_document r = true.
Proof.
  destruct cls; simpl; try (by intros [= <-]).
  unfold AudioReader_init. destruct (whisper_load_model _); simpl; [|done].
  by intros [= <-].
Qed.

Lemma outcome_read_file loaders (f : Path) :
  outcome (read_file loaders f) =
    match custom_loader loaders (suffix f) with
    | Some document_loader => document_loader f
    | None =>
        match _default_file_readers !! suffix f with
        | Some cls => instantiate cls f ≫= load
        | None => Ok []
        end
    end.
Proof.
  unfold read_file. rewrite outcome_try_finally_emit.
  destruct (custom_loader loaders (suffix f)); [done|].
  destruct (_default_file_readers !! suffix f); [|done].
  rewrite outcome_bind. simpl. rewrite outcome_bind. simpl.
  by destruct (instantiate _ _).
Qed.

(** An exception of the extraction ([load_file]) of a default adapter is
    the exception of the task. *)
Lemma read_file_extraction_raises loaders (f : Path) (cls : reader_cls)
    (r : FileBaseReader) (e : exn) :
  custom_loader loaders (suffix f) = None ->
  _default_file_readers !! suffix f = Some cls ->
  instantiate cls f = Ok r ->
  load_file r (file r) = Raise e ->
  outcome (read_file loaders f) = Raise e.
Proof.
  intros Hc Hreg Hr Hlf. rewrite outcome_read_file, Hc, Hreg, Hr.
  cbn [mbind res_bind]. by apply load_raises.
Qed.

(** What one task logs: the loader it hands the file to, or the warning,
    and then, on every exit, the progress update. *)
Lemma log_read_file loaders (f : Path) :
  log (read_file loaders f) =
    [ match custom_loader loaders (suffix f) with
      | Some _ => EvCustomLoader (suffix f) f
      | None =>
          match _default_file_readers !! suffix f with
          | Some cls => EvAdapter cls f
          | None => EvWarning (suffix f)
          end
      end; EvUpdate ].
Proof.
  unfold read_file. cbn [try_finally log emit].
  destruct (custom_loader loaders (suffix f)); [done|].
  destruct (_default_file_readers !! suffix f); [|done].
  rewrite log_emit_bind, log_bind. simpl.
  by destruct (instantiate _ _).
Qed.

Lemma Forall_log_dispatch (P : event -> Prop) mc loaders (files : list Path) :
  (forall n, P (EvTotal n)) -> P EvClose ->
  (forall f, f ∈ files -> Forall P (log (read_file loaders f))) ->
  Forall P (log (dispatch mc loaders files)).
Proof.
  intros H1 H2 H3. unfold dispatch.
  apply Forall_log_bind; [by apply Forall_log_emit|]. intros _.
  apply Forall_log_try_finally; [|by apply Forall_log_emit].
  apply Forall_log_bind.
  { destruct mc as [n|]; simpl; [destruct (decide _)|]; constructor. }
  intros _. apply Forall_log_bind; [by apply Forall_log_mapM|].
  intros results. apply Forall_log_silent.
Qed.

Lemma outcome_dispatch mc loaders (files : list Path) :
  outcome (dispatch mc loaders files) =
    match outcome (ThreadPoolExecutor mc) with
    | Ok _ =>
        match outcome (mapM (read_file loaders) files) with
        | Ok results => Ok (map as_dict (concat results))
        | Raise e => Raise e
        end
    | Raise e => Raise e
    end.
Proof.
  unfold dispatch. rewrite outcome_bind. cbn [outcome emit].
  rewrite outcome_try_finally_emit, outcome_bind.
  destruct (outcome (ThreadPoolExecutor mc)); [|done].
  rewrite outcome_bind. by destruct (outcome (mapM _ _)).
Qed.

(** The run after the resolution: nothing for an empty file set, the
    installer and then the dispatch otherwise. *)
Lemma outcome_read_from_directory input_dirs input_files flt mc loaders files :
  outcome (resolve_files input_dirs input_files flt) = Ok files ->
  outcome (read_from_directory input_dirs input_files flt mc loaders) =
    match files with
    | [] => Ok []
    | _ :: _ =>
        match outcome (install_reader_requirements files) with
        | Ok _ => outcome (dispatch mc loaders files)
        | Raise e => Raise e
        end
    end.
Proof.
  intros Hres. unfold read_from_directory. rewrite outcome_bind, Hres.
  destruct files as [|f files]; [done|].
  rewrite decide_False by done. by rewrite outcome_bind.
Qed.

Lemma Forall_log_read_from_directory (P : event -> Prop)
    input_dirs input_files flt mc loaders :
  Forall P (log (resolve_files input_dirs input_files flt)) ->
  (forall cls, P (EvSetup cls)) -> (forall pkg, P (EvAptGet pkg)) ->
  (forall pkg, P (EvInstall pkg)) -> (forall n, P (EvTotal n)) -> P EvClose ->
  (forall files f,
      outcome (resolve_files input_dirs input_files flt) = Ok files ->
      f ∈ files -> Forall P (log (read_file loaders f))) ->
  Forall P (log (read_from_directory input_dirs input_files flt mc loaders)).
Proof.
  intros Hres H1 H2 H3 H4 H5 Hrf. unfold read_from_directory.
  rewrite log_bind.
  destruct (outcome (resolve_files _ _ _)) as [files|] eqn:Hout; [|done].
  apply Forall_app. split; [done|].
  destruct (decide _); [apply Forall_log_silent|].
  apply Forall_log_bind; [by apply Forall_log_install|].
  intros _. apply Forall_log_dispatch; eauto.
Qed.
End DispatchTheory.

(** ** [read_from_directory] *)

Section OrchestratorTheory.
Context {SM : StrMethods} {LB : Libraries} {PF : Platform}.

Lemma read_file_default_texts (f : Path) (ds : list Document) :
  outcome (read_file None f) = Ok ds ->
  Forall (fun d => text d = EmptyString \/ strip (text d) <> EmptyString) ds.
Proof.
  rewrite outcome_read_file. cbn [custom_loader].
  destruct (_default_file_readers !! suffix f) as [cls|]; [|by intros [= <-]].
  destruct (instantiate cls f) as [r|] eqn:Hr; [|done].
  apply instantiate_defaults in Hr as [_ Hsingle]. cbn [mbind res_bind].
  destruct (load_file r (file r)) as [docs|e] eqn:Hlf;
    [|by rewrite (load_raises r e Hlf)].
  rewrite (load_unfold r docs Hlf), Hsingle. intros [= <-].
  apply Forall_singleton. cbn [text].
  pose proof (merge_policy_spec_text lit_sp _ (filter_nonblank_Forall docs)) as Hm.
  destruct (filter_nonblank docs); auto.
Qed.

Lemma not_elem_of_adapter_files (f : Path) (l : list event) :
  Forall (fun e => forall cls, e <> EvAdapter cls f) l -> f ∉ adapter_files l.
Proof.
  intros Hall Hin. unfold adapter_files in Hin.
  apply list_elem_of_omap in Hin as (e & He & Hf).
  eapply List.Forall_forall in Hall; [|by apply list_elem_of_In].
  destruct e; try done. injection Hf as ->. by eapply Hall.
Qed.

(** C1, as the code has it: if the task of a file of the resolved set
    raises, the whole operation raises and returns no Record; when that
    file is the only one whose task raises, the installer returned and
    the pool was created, the exception is the one of that file.  The
    progress update of the failing task still happens, once. *)
Theorem one_failure_aborts input_dirs input_files flt mc loaders
    (files : list Path) (f : Path) (e : exn) :
  outcome (resolve_files input_dirs input_files flt) = Ok files ->
  f ∈ files ->
  outcome (read_file loaders f) = Raise e ->
  (forall g, g ∈ files -> g <> f -> exists ds, outcome (read_file loaders g) = Ok ds) ->
  (exists e',
      outcome (read_from_directory input_dirs input_files flt mc loaders) = Raise e' /\
      (outcome (install_reader_requirements files) = Ok tt ->
       outcome (ThreadPoolExecutor mc) = Ok tt -> e' = e)) /\
  count_occ event_eq_dec (log (read_file loaders f)) EvUpdate = 1.
Proof.
  intros Hres Hf He Hothers. split.
  - rewrite (outcome_read_from_directory _ _ _ _ _ files Hres).
    destruct files as [|f0 files0] eqn:Hfiles; [by apply elem_of_nil in Hf|].
    rewrite <- Hfiles in *. clear Hfiles.
    rewrite outcome_dispatch,
      (outcome_mapM_Raise (read_file loaders) files f e Hf He Hothers).
    destruct (outcome (install_reader_requirements files)) as [[]|e1];
      [|exists e1; split; [done|congruence]].
    destruct (outcome (ThreadPoolExecutor mc)) as [[]|e2];
      [|exists e2; split; [done|congruence]].
    by exists e.
  - rewrite log_read_file. cbn [count_occ].
    destruct (custom_loader loaders (suffix f));
      [|destruct (_default_file_readers !! suffix f)];
      destruct (event_eq_dec _ EvUpdate); try done;
      destruct (event_eq_dec _ _); done.
Qed.

(** C3, as the code has it: without custom loaders, the text of every
    returned Record is the empty string or has a character that is no
    white space; with [single_text_per_document=False], [load] returns
    only Records whose text has such a character. *)
Theorem output_text_empty_or_nonblank :
  (forall input_dirs input_files flt mc rows,
      outcome (read_from_directory input_dirs input_files flt mc None) = Ok rows ->
      Forall (fun row => out_text row = EmptyString \/
                         strip (out_text row) <> EmptyString) rows) /\
  (forall (r : FileBaseReader) (ds : list Document),
      single_text_per_document r = false ->
      load r = Ok ds ->
      Forall (fun d => strip (text d) <> EmptyString) ds).
Proof.
  split.
  - intros input_dirs input_files flt mc rows.
    destruct (outcome (resolve_files input_dirs input_files flt)) as [files|e] eqn:Hres.
    2: { unfold read_from_directory. by rewrite outcome_bind, Hres. }
    rewrite (outcome_read_from_directory _ _ _ _ _ files Hres).
    destruct files as [|f0 files0] eqn:Hfiles; [intros [= <-]; constructor|].
    rewrite <- Hfiles. clear Hfiles.
    destruct (outcome (install_reader_requirements files)); [|done].
    rewrite outcome_dispatch.
    destruct (outcome (ThreadPoolExecutor mc)); [|done].
    destruct (outcome (mapM (read_file None) files)) as [results|] eqn:Hmap; [|done].
    intros [= <-]. apply outcome_mapM_Ok in Hmap.
    apply Forall_map. apply Forall_concat.
    induction Hmap as [|g ds files' results' Hg _ IH]; constructor; [|exact IH].
    exact (read_file_default_texts g ds Hg).
  - intros r ds Hmulti Hload.
    destruct (load_file r (file r)) as [docs|e] eqn:Hlf;
      [|by rewrite (load_raises r e Hlf) in Hload].
    rewrite (load_unfold r docs Hlf), Hmulti in Hload. injection Hload as <-.
    apply filter_nonblank_Forall.
Qed.

(** C6: a file whose extension is a key of the custom-loader mapping is
    handed to the custom loader, whose result is the result of the task,
    and no default adapter is instantiated for that file anywhere in the
    run, whether or not the registry knows the extension. *)
Theorem custom_loader_precedence input_dirs input_files flt mc
    (d : gmap string (Path -> res (list Document)))
    (f : Path) (document_loader : Path -> res (list Document)) :
  d !! suffix f = Some document_loader ->
  read_file (Some d) f
    = Run [EvCustomLoader (suffix f) f; EvUpdate] (document_loader f) /\
  f ∉ adapter_files
        (log (read_from_directory input_dirs input_files flt mc (Some d))).
Proof.
  intros Hd. split.
  - unfold read_file. cbn [custom_loader]. by rewrite Hd.
  - apply not_elem_of_adapter_files.
    apply Forall_log_read_from_directory; try done.
    + unfold resolve_files. apply Forall_log_bind; [|intros; apply Forall_log_silent].
      unfold collect_files.
      destruct input_files as [[|f1 fs]|]; try apply Forall_log_silent;
        (destruct input_dirs as [dirs|]; [|apply Forall_log_silent]);
        (apply Forall_log_bind; [|intros; apply Forall_log_silent]);
        apply Forall_log_mapM; intros x _;
        (apply Forall_log_bind; [by apply Forall_log_emit|]);
        intros; apply Forall_log_silent.
    + intros files g _ _. rewrite log_read_file. cbn [custom_loader].
      repeat constructor; [|done].
      intros cls. destruct (d !! suffix g) eqn:Hg; [done|].
      destruct (_default_file_readers !! suffix g); [|done].
      intros [= -> ->]. congruence.
Qed.

Lemma elem_of_dedup (collected : list Path) (p : Path) :
  p ∈ dedup collected <-> p ∈ collected.
Proof. unfold dedup. by rewrite elem_of_elements, elem_of_list_to_set. Qed.

Lemma NoDup_dedup (collected : list Path) : NoDup (dedup collected).
Proof. unfold dedup. apply NoDup_elements. Qed.

Lemma length_dedup (collected : list Path) :
  length (dedup collected) = length (remove_dups collected).
Proof. apply Permutation_length, elements_list_to_set_remove_dups. Qed.

Lemma collect_files_dirs (dirs : string + list string)
    (input_files : option (list string)) flt :
  input_files = None \/ input_files = Some [] ->
  let ds := match dirs with inl d => [d] | inr l => l end in
  collect_files (Some dirs) input_files flt
  = Run (map EvGetFiles ds) (Ok (concat (map (fun d => get_files d flt) ds))).
Proof.
  intros Hfalsy ds.
  assert (Hm : forall l : list string,
             mapM (fun input_dir => emit (EvGetFiles input_dir);;
                                    mret (get_files input_dir flt)) l
             = Run (map EvGetFiles l) (Ok (map (fun d => get_files d flt) l))).
  { induction l as [|d l IH]; [done|]. cbn [mapM]. rewrite IH.
    unfold mbind, M_bind, emit, mret, M_ret. simpl. by rewrite app_nil_r. }
  destruct Hfalsy as [-> | ->]; cbn [collect_files]; fold ds; rewrite Hm;
    unfold mbind, M_bind; cbn [outcome log mret M_ret]; by rewrite app_nil_r.
Qed.

(** The run once the list of paths is collected: the list is made a set,
    and that set is what the early exit tests and what the installer and
    the dispatch receive. *)
Lemma read_from_directory_collected input_dirs input_files flt mc loaders
    (l : list event) (collected : list Path) :
  collect_files input_dirs input_files flt = Run l (Ok collected) ->
  read_from_directory input_dirs input_files flt mc loaders
  = (Run l (Ok tt);;
     match dedup collected with
     | [] => Run [] (Ok [])
     | _ :: _ =>
         install_reader_requirements (dedup collected);;
         dispatch mc loaders (dedup collected)
     end).
Proof.
  intros Hc. unfold read_from_directory, resolve_files. rewrite Hc.
  unfold mbind at 1 2 3. unfold M_bind at 1 2 3. cbn [outcome log mret M_ret].
  rewrite app_nil_r.
  destruct (dedup collected) as [|f files]; [done|].
  by rewrite decide_False.
Qed.

(** C7, as the code has it: for a non-empty [input_files], duplicates and
    all, the resolved file set has no path twice, holds the paths of the
    entries that are regular files, and has as many elements as those
    entries have distinct paths; this set is what the installer and the
    dispatch receive.  The same holds of the paths the traversals return
    when the directories are read instead. *)
Theorem resolved_files_distinct flt mc loaders :
  (forall input_dirs (input_files : list string),
      input_files <> [] ->
      exists files_to_read : list Path,
        NoDup files_to_read /\
        (forall p, p ∈ files_to_read <->
                   p ∈ map Path_of (List.filter isfile input_files)) /\
        length files_to_read
        = length (remove_dups (map Path_of (List.filter isfile input_files))) /\
        read_from_directory input_dirs (Some input_files) flt mc loaders
        = match files_to_read with
          | [] => Run [] (Ok [])
          | _ :: _ =>
              install_reader_requirements files_to_read;;
              dispatch mc loaders files_to_read
          end) /\
  (forall (dirs : string + list string) (input_files : option (list string)),
      input_files = None \/ input_files = Some [] ->
      let ds := match dirs with inl d => [d] | inr l => l end in
      exists files_to_read : list Path,
        NoDup files_to_read /\
        (forall p, p ∈ files_to_read <->
                   p ∈ concat (map (fun d => get_files d flt) ds)) /\
        length files_to_read
        = length (remove_dups (concat (map (fun d => get_files d flt) ds))) /\
        read_from_directory (Some dirs) input_files flt mc loaders
        = (Run (map EvGetFiles ds) (Ok tt);;
           match files_to_read with
           | [] => Run [] (Ok [])
           | _ :: _ =>
               install_reader_requirements files_to_read;;
               dispatch mc loaders files_to_read
           end)).
Proof.
  split.
  - intros input_dirs input_files Hne.
    exists (dedup (map Path_of (List.filter isfile input_files))).
    split; [apply NoDup_dedup|]. split; [apply elem_of_dedup|].
    split; [apply length_dedup|].
    destruct input_files as [|f fs]; [done|].
    rewrite (read_from_directory_collected input_dirs (Some (f :: fs)) flt mc loaders
               [] (map Path_of (List.filter isfile (f :: fs)))) by reflexivity.
    unfold mbind at 1. unfold M_bind at 1. cbn [outcome log app].
    by destruct (match dedup _ with [] => _ | _ :: _ => _ end).
  - intros dirs input_files Hfalsy ds.
    exists (dedup (concat (map (fun d => get_files d flt) ds))).
    split; [apply NoDup_dedup|]. split; [apply elem_of_dedup|].
    split; [apply length_dedup|].
    apply read_from_directory_collected.
    by apply collect_files_dirs.
Qed.

(** C8, as the code has it: when [input_files] is a non-empty list, the
    resolved file set is made of the entries of [input_files] that are
    regular files, whatever [input_dirs] is; no directory is traversed
    and only such entries reach a loader. *)
Theorem explicit_files_precedence input_dirs (input_files : list string)
    flt mc loaders :
  input_files <> [] ->
  resolve_files input_dirs (Some input_files) flt
    = Run [] (Ok (dedup (map Path_of (List.filter isfile input_files)))) /\
  traversed (log (read_from_directory input_dirs (Some input_files) flt mc loaders)) = [] /\
  (forall p,
      p ∈ ingested (log (read_from_directory input_dirs (Some input_files) flt mc loaders)) ->
      p ∈ map Path_of (List.filter isfile input_files)).
Proof.
  intros Hne. destruct input_files as [|f fs]; [done|]. clear Hne.
  assert (Hres : resolve_files input_dirs (Some (f :: fs)) flt
                 = Run [] (Ok (dedup (map Path_of (List.filter isfile (f :: fs)))))).
  { reflexivity. }
  set (P := fun e : event =>
              match e with
              | EvGetFiles _ => False
              | EvCustomLoader _ p | EvAdapter _ p =>
                  p ∈ map Path_of (List.filter isfile (f :: fs))
              | _ => True
              end).
  assert (Hall : Forall P (log (read_from_directory input_dirs (Some (f :: fs))
                                  flt mc loaders))).
  { apply Forall_log_read_from_directory;
      [rewrite Hres; constructor|done|done|done|done|done|].
    intros files g Hfiles Hg. rewrite Hres in Hfiles. injection Hfiles as <-.
    apply (proj1 (elem_of_dedup _ _)) in Hg. rewrite log_read_file.
    repeat constructor.
    destruct (custom_loader loaders (suffix g)); [exact Hg|].
    by destruct (_default_file_readers !! suffix g). }
  split; [exact Hres|]. split.
  - induction Hall as [|e l He _ IH]; [done|].
    unfold traversed. cbn [omap list_omap]. by destruct e.
  - intros p Hp. unfold ingested in Hp.
    apply list_elem_of_omap in Hp as (e & He & Hp).
    eapply List.Forall_forall in Hall; [|by apply list_elem_of_In].
    destruct e; try done; injection Hp as ->; exact Hall.
Qed.
End OrchestratorTheory.

(** ** The merge and the configured separator *)

(** The text [load] builds does not depend on [page_separator]. *)
Lemma load_separator_irrelevant {SM : StrMethods} (f : Path) (single : bool)
    (sep sep' : string) (lf : Path -> res (list Document)) :
  load (FileBaseReader_init f single sep lf) = load (FileBaseReader_init f single sep' lf).
Proof. reflexivity. Qed.

(** C2: a reader configured with ["|"] over the units ["Hello"] and
    ["world"].  [load] joins them with blanks, while the Merge Policy for
    the configured separator puts ["|"] before each unit. *)
Theorem page_separator_ignored :
  page_separator bar_reader = "|" /\
  load (SM:=latin1) bar_reader
    = Ok [ mkDocument (String LF (String LF " Hello world"))
                      {[ "source" := "notes.docx" ]} ] /\
  merge_policy_spec (SM:=latin1) (page_separator bar_reader)
      (filter_nonblank (SM:=latin1) two_units)
    = String LF (String LF "|Hello|world").
Proof. split; [reflexivity|]. split; vm_compute; reflexivity. Qed.

(** ** Scenarios *)

(** C5: the two-page PDF with the page texts ["Hello world."] and
    ["continued text"], read with [single_text_per_document=True] and
    [page_separator=' ']: one Record, its text two line feeds and then
    [" Hello world. continued text"], its metadata the source path only. *)
Theorem pdf_merge_scenario {LB : Libraries} (path : Path) (label1 label2 : string) :
  pypdf_PdfReader path
    = Ok (mkPdf [Ok "Hello world."; Ok "continued text"] [label1; label2]) ->
  load (SM:=latin1) (PDFReader_init path true " ")
    = Ok [ mkDocument (String LF (String LF " Hello world. continued text"))
                      {[ "source" := path ]} ].
Proof.
  intros Hpdf.
  set (r := PDFReader_init path true " ").
  assert (Hlf : load_file r (file r)
                = Ok [ mkDocument "Hello world."
                         {[ "page_label" := label1; "source" := path ]};
                       mkDocument "continued text"
                         {[ "page_label" := label2; "source" := path ]} ]).
  { simpl. unfold PDFReader_load_file. by rewrite Hpdf. }
  by rewrite (load_unfold (SM:=latin1) r _ Hlf).
Qed.

Section Scenarios.
#[local] Existing Instance latin1.
#[local] Existing Instance demo_libraries.
#[local] Existing Instance demo_platform.

Lemma pdf_merge_scenario_demo :
  pypdf_PdfReader "hello.pdf"
    = Ok (mkPdf [Ok "Hello world."; Ok "continued text"] ["1"; "2"]) /\
  load (PDFReader_init "hello.pdf" true " ")
    = Ok [ mkDocument (String LF (String LF " Hello world. continued text"))
                      {[ "source" := "hello.pdf" ]} ].
Proof.
  split; [reflexivity|].
  apply (pdf_merge_scenario "hello.pdf" "1" "2"). reflexivity.
Defined.

Lemma load_single_exactly_one_blank_pdf :
  let r := PDFReader_init "blank.pdf" true str_LF in
  single_text_per_document r = true /\
  load_file r (file r)
    = Ok [ mkDocument "   " {[ "page_label" := "i"; "source" := "blank.pdf" ]};
           mkDocument EmptyString {[ "page_label" := "ii"; "source" := "blank.pdf" ]} ] /\
  exists d : Document,
    load r = Ok [d] /\ metadata d = {[ "source" := "blank.pdf" ]} /\ text d = EmptyString.
Proof.
  intros r. split; [reflexivity|]. split; [reflexivity|].
  destruct (load_single_exactly_one r _ eq_refl eq_refl) as (d & Hd & Hm & Ht).
  exists d. split; [exact Hd|]. split; [exact Hm|]. apply Ht. reflexivity.
Defined.

(** One of two files cannot be parsed: the run raises, although the
    task of the other file returns a Record. *)
Lemma one_bad_pdf_aborts_run :
  outcome (resolve_files None (Some ["hello.pdf"; "bad.pdf"]) no_filters)
    = Ok ["bad.pdf"; "hello.pdf"] /\
  outcome (read_file None "bad.pdf") = Raise (LibraryError "PdfReadError") /\
  outcome (read_file None "hello.pdf")
    = Ok [ mkDocument (String LF (String LF " Hello world. continued text"))
                      {[ "source" := "hello.pdf" ]} ] /\
  outcome (read_from_directory None (Some ["hello.pdf"; "bad.pdf"]) no_filters None None)
    = Raise (LibraryError "PdfReadError").
Proof. repeat split; vm_compute; reflexivity. Qed.

Lemma one_failure_aborts_demo :
  outcome (read_from_directory None (Some ["hello.pdf"; "bad.pdf"]) no_filters None None)
    = Raise (LibraryError "PdfReadError") /\
  count_occ event_eq_dec (log (read_file None "bad.pdf")) EvUpdate = 1.
Proof.
  assert (Hres : outcome (resolve_files None (Some ["hello.pdf"; "bad.pdf"]) no_filters)
                 = Ok ["bad.pdf"; "hello.pdf"]) by (vm_compute; reflexivity).
  assert (Hbad : outcome (read_file None "bad.pdf") = Raise (LibraryError "PdfReadError"))
    by (vm_compute; reflexivity).
  assert (Hin : "bad.pdf" ∈ ["bad.pdf"; "hello.pdf"]) by apply list_elem_of_here.
  assert (Hothers : forall g : Path, g ∈ ["bad.pdf"; "hello.pdf"] -> g <> "bad.pdf" ->
                      exists ds, outcome (read_file None g) = Ok ds).
  { intros g Hg Hne. apply elem_of_cons in Hg as [Hg|Hg]; [contradiction|].
    apply list_elem_of_singleton in Hg. rewrite Hg. eexists. vm_compute. reflexivity. }
  destruct (one_failure_aborts None (Some ["hello.pdf"; "bad.pdf"]) no_filters None None
              _ _ _ Hres Hin Hbad Hothers) as [(e' & Hrun & He') Hupd].
  split; [|exact Hupd].
  rewrite Hrun. f_equal. apply He'; vm_compute; reflexivity.
Defined.

(** A PDF whose pages hold white space only comes back as one Record
    with an empty text. *)
Lemma blank_pdf_yields_empty_text :
  exists row : OutDict,
    outcome (read_from_directory None (Some ["blank.pdf"]) no_filters None None)
      = Ok [row] /\
    out_text row = EmptyString /\ strip (out_text row) = EmptyString.
Proof.
  exists (mkOutDict EmptyString {[ "source" := "blank.pdf" ]}).
  repeat split; vm_compute; reflexivity.
Qed.

Lemma output_text_empty_or_nonblank_demo :
  Forall (fun row => out_text row = EmptyString \/ strip (out_text row) <> EmptyString)
    [ mkOutDict (String LF (String LF " Hello world. continued text"))
                {[ "source" := "hello.pdf" ]} ] /\
  Forall (fun d => strip (text d) <> EmptyString)
    [ mkDocument "Hello world." {[ "page_label" := "1"; "source" := "hello.pdf" ]};
      mkDocument "continued text" {[ "page_label" := "2"; "source" := "hello.pdf" ]} ].
Proof.
  split.
  - apply (proj1 output_text_empty_or_nonblank None (Some ["hello.pdf"]) no_filters None).
    vm_compute. reflexivity.
  - apply (proj2 output_text_empty_or_nonblank (PDFReader_init "hello.pdf" false str_LF)).
    + reflexivity.
    + vm_compute. reflexivity.
Defined.

(** A [.jpg] and a [.png] file: the set-up of the image reader runs
    twice. *)
Lemma image_setup_runs_twice :
  setup_runs ImageReader
    (log (read_from_directory None (Some ["a.jpg"; "b.png"]) no_filters None None)) = 2.
Proof. vm_compute. reflexivity. Qed.

Lemma setup_once_per_extension_demo :
  outcome (install_reader_requirements ["a.jpg"; "b.png"; "hello.pdf"; "bad.pdf"]) = Ok tt /\
  setup_runs PDFReader
    (log (install_reader_requirements ["a.jpg"; "b.png"; "hello.pdf"; "bad.pdf"])) = 1.
Proof.
  split; [vm_compute; reflexivity|].
  rewrite (setup_once_per_extension ["a.jpg"; "b.png"; "hello.pdf"; "bad.pdf"] PDFReader).
  - vm_compute. reflexivity.
  - vm_compute. reflexivity.
Defined.

Lemma custom_loader_precedence_demo :
  pdf_override !! suffix "hello.pdf"
    = Some (fun p : Path => Ok [ mkDocument "custom" {[ "source" := p ]} ]) /\
  _default_file_readers !! suffix "hello.pdf" = Some PDFReader /\
  outcome (read_file (Some pdf_override) "hello.pdf")
    = Ok [ mkDocument "custom" {[ "source" := "hello.pdf" ]} ] /\
  "hello.pdf" ∉ adapter_files
      (log (read_from_directory None (Some ["hello.pdf"; "a.jpg"]) no_filters None
              (Some pdf_override))).
Proof.
  assert (Hd : pdf_override !! suffix "hello.pdf"
               = Some (fun p : Path => Ok [ mkDocument "custom" {[ "source" := p ]} ]))
    by (vm_compute; reflexivity).
  split; [exact Hd|]. split; [vm_compute; reflexivity|].
  destruct (custom_loader_precedence None (Some ["hello.pdf"; "a.jpg"]) no_filters None
              pdf_override "hello.pdf" _ Hd) as [Hrun Hnot].
  split; [by rewrite Hrun|exact Hnot].
Defined.

(** Three entries, two distinct paths, one of them no file: the
    resolved set has one element. *)
Lemma missing_file_not_counted :
  length (remove_dups (map Path_of ["hello.pdf"; "hello.pdf"; "missing.pdf"])) = 2 /\
  resolve_files None (Some ["hello.pdf"; "hello.pdf"; "missing.pdf"]) no_filters
    = Run [] (Ok ["hello.pdf"]) /\
  EvTotal 1 ∈ log (read_from_directory None (Some ["hello.pdf"; "hello.pdf"; "missing.pdf"])
                     no_filters None None).
Proof.
  split; [vm_compute; reflexivity|]. split; [vm_compute; reflexivity|].
  apply list_elem_of_In. vm_compute. tauto.
Qed.

Lemma resolved_files_distinct_demo :
  ["hello.pdf"; "a.jpg"; "hello.pdf"; "missing.pdf"] <> [] /\
  exists files_to_read : list Path,
    NoDup files_to_read /\
    (forall p, p ∈ files_to_read <-> p ∈ ["hello.pdf"; "a.jpg"; "hello.pdf"]) /\
    length files_to_read = 2 /\
    read_from_directory None (Some ["hello.pdf"; "a.jpg"; "hello.pdf"; "missing.pdf"])
      no_filters None None
    = match files_to_read with
      | [] => Run [] (Ok [])
      | _ :: _ =>
          install_reader_requirements files_to_read;;
          dispatch None None files_to_read
      end.
Proof.
  assert (Hne : ["hello.pdf"; "a.jpg"; "hello.pdf"; "missing.pdf"] <> []) by discriminate.
  split; [exact Hne|].
  exact (proj1 (resolved_files_distinct no_filters None None) None
           ["hello.pdf"; "a.jpg"; "hello.pdf"; "missing.pdf"] Hne).
Defined.

(** An empty [input_files] next to a directory: the directory is
    traversed and its file is ingested. *)
Lemma empty_input_files_traverses :
  traversed (log (read_from_directory (Some (inl "docs")) (Some []) no_filters None None))
    = ["docs"] /\
  ingested (log (read_from_directory (Some (inl "docs")) (Some []) no_filters None None))
    = ["hello.pdf"].
Proof. split; vm_compute; reflexivity. Qed.

Lemma explicit_files_precedence_demo :
  ["a.jpg"; "missing.pdf"] <> [] /\
  resolve_files (Some (inl "docs")) (Some ["a.jpg"; "missing.pdf"]) no_filters
    = Run [] (Ok ["a.jpg"]) /\
  traversed (log (read_from_directory (Some (inl "docs")) (Some ["a.jpg"; "missing.pdf"])
                    no_filters None None)) = [].
Proof.
  assert (Hne : ["a.jpg"; "missing.pdf"] <> []) by discriminate.
  split; [exact Hne|].
  destruct (explicit_files_precedence (Some (inl "docs")) ["a.jpg"; "missing.pdf"]
              no_filters None None Hne) as (Hres & Htrav & _).
  split; [|exact Htrav].
  rewrite Hres. vm_compute. reflexivity.
Defined.
End Scenarios.

(** * Further properties of the code *)

(** ** The merge of [load] *)

Section MergeTheory.
Context {SM : StrMethods}.

Lemma first_alpha_None_iff (s : string) :
  first_alpha s = None <->
  (forall i ch, String.get i s = Some ch -> isalpha ch = false).
Proof.
  induction s as [|c s IH]; simpl.
  - split; [intros _ i ch; by destruct i|done].
  - destruct (isalpha c) eqn:Hc.
    + split; [done|]. intros H. specialize (H 0 c eq_refl). congruence.
    + rewrite IH. split.
      * intros H [|i] ch; simpl; [by intros [= <-]|apply H].
      * intros H i ch Hi. exact (H (S i) ch Hi).
Qed.

Lemma first_alpha_append (pre : string) (c : ascii) (rest : string) :
  first_alpha pre = None -> isalpha c = true ->
  first_alpha (pre +:+ String c rest) = Some c.
Proof.
  induction pre as [|a pre IH]; intros Hpre Hc.
  - simpl. by rewrite Hc.
  - rewrite append_cons. simpl in *. destruct (isalpha a); [done|]. auto.
Qed.

(** X1: [firstAlphaIsUppercase] passes over the characters that are not
    alphabetic and answers with the case of the first alphabetic one;
    without any alphabetic character it answers [False].  It never
    raises. *)
Theorem firstAlphaIsUppercase_first_letter (doc : Document) :
  (forall pre c rest,
      text doc = pre +:+ String c rest ->
      (forall i ch, String.get i pre = Some ch -> isalpha ch = false) ->
      isalpha c = true ->
      firstAlphaIsUppercase doc (text doc) = Ok (isupper c)) /\
  ((forall i ch, String.get i (text doc) = Some ch -> isalpha ch = false) ->
   firstAlphaIsUppercase doc (text doc) = Ok false).
Proof.
  split.
  - intros pre c rest Htext Hpre Hc. rewrite firstAlphaIsUppercase_spec.
    unfold starts_paragraph.
    rewrite Htext, first_alpha_append; [done| |done].
    by apply first_alpha_None_iff.
  - intros Hnone. rewrite firstAlphaIsUppercase_spec. unfold starts_paragraph.
    by rewrite (proj2 (first_alpha_None_iff _) Hnone).
Qed.

Lemma filter_nonblank_app (l1 l2 : list Document) :
  filter_nonblank (l1 ++ l2) = filter_nonblank l1 ++ filter_nonblank l2.
Proof. apply List.filter_app. Qed.

(** X2: units whose text is blank leave no trace: with or without such a unit
    among those [load_file] returns, [load] returns the same. *)
Theorem load_ignores_blank_unit (r r' : FileBaseReader)
    (l1 l2 : list Document) (d : Document) :
  file r = file r' ->
  single_text_per_document r = single_text_per_document r' ->
  strip (text d) = EmptyString ->
  load_file r (file r) = Ok (l1 ++ d :: l2) ->
  load_file r' (file r') = Ok (l1 ++ l2) ->
  load r = load r'.
Proof.
  intros Hfile Hsingle Hd Hlf Hlf'.
  rewrite (load_unfold r _ Hlf), (load_unfold r' _ Hlf').
  assert (Hf : filter_nonblank (l1 ++ d :: l2) = filter_nonblank (l1 ++ l2)).
  { rewrite !filter_nonblank_app. f_equal. unfold filter_nonblank. simpl.
    unfold nonblank. by destruct (string_dec (strip (text d)) EmptyString). }
  rewrite Hf, Hsingle. unfold get_metadata. by rewrite Hfile.
Qed.

Lemma merge_policy_spec_app (sep : string) (l1 l2 : list Document) :
  merge_policy_spec sep (l1 ++ l2)
  = merge_policy_spec sep l1 +:+ merge_policy_spec sep l2.
Proof.
  induction l1 as [|d l1 IH]; [done|].
  cbn [app merge_policy_spec]. by rewrite IH, !append_assoc.
Qed.

(** X3: the merged text of a file whose units are those of a first file
    followed by those of a second is the merged text of the first followed
    by the merged text of the second: what is put before a unit depends on
    that unit alone, the first unit included. *)
Theorem load_merge_concat (r1 r2 r : FileBaseReader) (l1 l2 : list Document)
    (d1 d2 : Document) :
  single_text_per_document r1 = true ->
  single_text_per_document r2 = true ->
  single_text_per_document r = true ->
  load_file r1 (file r1) = Ok l1 ->
  load_file r2 (file r2) = Ok l2 ->
  load_file r (file r) = Ok (l1 ++ l2) ->
  load r1 = Ok [d1] ->
  load r2 = Ok [d2] ->
  load r = Ok [ mkDocument (text d1 +:+ text d2) {[ "source" := file r ]} ].
Proof.
  intros H1 H2 H Hl1 Hl2 Hl Hd1 Hd2.
  rewrite (load_unfold r1 _ Hl1), H1 in Hd1. injection Hd1 as <-.
  rewrite (load_unfold r2 _ Hl2), H2 in Hd2. injection Hd2 as <-.
  rewrite (load_unfold r _ Hl), H. cbn [text].
  by rewrite filter_nonblank_app, merge_policy_spec_app.
Qed.

(** X4: in the merged text nothing of the kept units is lost or reordered:
    the text is the units' texts in extraction order, each preceded by a
    blank or by two line feeds and a blank. *)
Theorem load_merged_text_shape (r : FileBaseReader) (docs : list Document) (d : Document) :
  single_text_per_document r = true ->
  load_file r (file r) = Ok docs ->
  load r = Ok [d] ->
  exists prefixes : list string,
    length prefixes = length (filter_nonblank docs) /\
    Forall (fun p => p = lit_sp \/ p = lit_lf_lf_sp) prefixes /\
    text d = foldr String.append EmptyString
               (zip_with String.append prefixes (map text (filter_nonblank docs))).
Proof.
  intros Hs Hlf Hload. rewrite (load_unfold r _ Hlf), Hs in Hload.
  injection Hload as <-. cbn [text].
  induction (filter_nonblank docs) as [|u us IH].
  - exists []. by repeat split.
  - destruct IH as (ps & Hlen & Hps & Htxt).
    exists ((if starts_paragraph (text u) then lit_lf_lf_sp else lit_sp) :: ps).
    split; [simpl; by rewrite Hlen|]. split.
    + constructor; [|done]. destruct (starts_paragraph (text u)); auto.
    + cbn [merge_policy_spec map zip_with foldr]. rewrite Htxt.
      destruct (starts_paragraph (text u)); by rewrite !append_assoc.
Qed.

Lemma filter_nonblank_filter (docs : list Document) :
  filter_nonblank docs = filter (fun d => strip (text d) <> EmptyString) docs.
Proof.
  unfold filter_nonblank. induction docs as [|d docs IH]; [done|].
  rewrite filter_cons. cbn [List.filter]. rewrite IH. unfold nonblank.
  destruct (string_dec (strip (text d)) EmptyString) as [He|Hne].
  - by rewrite decide_False by (by intros ?).
  - by rewrite decide_True.
Qed.

(** X5: with [single_text_per_document=False], [load] returns the units with
    a non-blank text, and only those, in extraction order and untouched:
    the list [load_file] returned with the blank units taken out, each
    kept unit as often as it occurs. *)
Theorem load_multi_units (r : FileBaseReader) (docs : list Document) :
  single_text_per_document r = false ->
  load_file r (file r) = Ok docs ->
  exists ds : list Document,
    load r = Ok ds /\
    ds = filter (fun d => strip (text d) <> EmptyString) docs /\
    sublist ds docs /\
    (forall d, d ∈ ds <-> d ∈ docs /\ strip (text d) <> EmptyString).
Proof.
  intros Hs Hlf. exists (filter_nonblank docs).
  rewrite (load_unfold r _ Hlf), Hs. split; [done|].
  split; [apply filter_nonblank_filter|]. split.
  - clear Hlf. unfold filter_nonblank. induction docs as [|d docs IH]; [constructor|].
    simpl. destruct (nonblank d); by constructor.
  - intros d. rewrite !list_elem_of_In. unfold filter_nonblank.
    rewrite List.filter_In. unfold nonblank.
    destruct (string_dec (strip (text d)) EmptyString) as [He|Hne].
    + split; [by intros [_ ?]|]. intros [_ Hn]. contradiction.
    + split; intros [Hin _]; by split.
Qed.
End MergeTheory.

(** ** The adapters *)

Lemma res_mapM_Ok {A B : Type} (f : A -> res B) (l : list A) (k : list B) :
  mapM f l = Ok k -> Forall2 (fun x y => f x = Ok y) l k.
Proof.
  revert k. induction l as [|x l IH]; intros k; simpl.
  - intros [= <-]. constructor.
  - destruct (f x) as [y|] eqn:Hy; [|done]. cbn [mbind res_bind].
    destruct (mapM f l) as [k'|]; [|done]. cbn [mbind res_bind mret res_ret].
    intros [= <-]. constructor; auto.
Qed.

Section AdapterTheory.
Context {SM : StrMethods} {LB : Libraries}.

Lemma PDFReader_page_inv (f : Path) (pdf : Pdf) (i : nat) (d : Document) :
  PDFReader_page f pdf i = Ok d ->
  pdf_pages pdf !! i = Some (Ok (text d)) /\
  exists label,
    pdf_page_labels pdf !! i = Some label /\
    metadata d = {[ "page_label" := label; "source" := f ]}.
Proof.
  unfold PDFReader_page.
  destruct (pdf_pages pdf !! i) as [[page_text|]|]; try done.
  cbn [mbind res_bind].
  destruct (pdf_page_labels pdf !! i) as [label|]; [|done].
  intros [= <-]. eauto.
Qed.

Lemma PDFReader_load_file_inv (f : Path) (pdf : Pdf) (docs : list Document) :
  pypdf_PdfReader f = Ok pdf ->
  PDFReader_load_file f = Ok docs ->
  Forall2 (fun i d => PDFReader_page f pdf i = Ok d) (seq 0 (length (pdf_pages pdf))) docs.
Proof.
  intros Hpdf. unfold PDFReader_load_file. rewrite Hpdf. cbn [mbind res_bind].
  apply res_mapM_Ok.
Qed.

(** X6: when [PDFReader.load_file] returns, it returns one Document for every
    page, in page order: the [i]-th has the extracted text of page [i]
    and, as metadata, the label of page [i] and the source path. *)
Theorem PDFReader_load_file_pages (f : Path) (pdf : Pdf) (docs : list Document) :
  pypdf_PdfReader f = Ok pdf ->
  PDFReader_load_file f = Ok docs ->
  length docs = length (pdf_pages pdf) /\
  (forall i d, docs !! i = Some d ->
     pdf_pages pdf !! i = Some (Ok (text d)) /\
     exists label,
       pdf_page_labels pdf !! i = Some label /\
       metadata d = {[ "page_label" := label; "source" := f ]}).
Proof.
  intros Hpdf Hdocs. pose proof (PDFReader_load_file_inv f pdf docs Hpdf Hdocs) as Hall.
  split.
  - apply Forall2_length in Hall. by rewrite length_seq in Hall.
  - intros i d Hd.
    destruct (Forall2_lookup_r _ _ _ _ _ Hall Hd) as (j & Hj & Hpage).
    apply lookup_seq in Hj as [-> _]. by apply PDFReader_page_inv.
Qed.

(** X7: A PDF read with [single_text_per_document=False]: the returned
    Records are the pages with a non-blank text, in page order, the Record
    of page [i] carrying the text of page [i], the label of page [i] and
    the source path. *)
Theorem PDFReader_multi_page_labels (f : Path) (sep : string) (ds : list Document) :
  load (PDFReader_init f false sep) = Ok ds ->
  (exists (pdf : Pdf) (docs : list Document),
      pypdf_PdfReader f = Ok pdf /\
      length docs = length (pdf_pages pdf) /\
      (forall i d, docs !! i = Some d ->
         pdf_pages pdf !! i = Some (Ok (text d)) /\
         exists label,
           pdf_page_labels pdf !! i = Some label /\
           metadata d = {[ "page_label" := label; "source" := f ]}) /\
      ds = filter (fun d => strip (text d) <> EmptyString) docs) /\
  Forall (fun d => strip (text d) <> EmptyString /\
                   metadata d !! "source" = Some f /\
                   is_Some (metadata d !! "page_label")) ds.
Proof.
  intros Hload. set (r := PDFReader_init f false sep) in *.
  destruct (load_file r (file r)) as [docs|e] eqn:Hlf;
    [|by rewrite (load_raises r e Hlf) in Hload].
  rewrite (load_unfold r docs Hlf) in Hload. cbn [r PDFReader_init FileBaseReader_init
    single_text_per_document] in Hload. injection Hload as <-.
  cbn [r PDFReader_init FileBaseReader_init load_file file] in Hlf.
  destruct (pypdf_PdfReader f) as [pdf|] eqn:Hpdf;
    [|by unfold PDFReader_load_file in Hlf; rewrite Hpdf in Hlf].
  pose proof (PDFReader_load_file_inv f pdf docs Hpdf Hlf) as Hall.
  split.
  - exists pdf, docs. split; [done|]. split.
    { apply Forall2_length in Hall. by rewrite length_seq in Hall. }
    split; [|apply filter_nonblank_filter].
    intros i d Hd.
    destruct (Forall2_lookup_r _ _ _ _ _ Hall Hd) as (j & Hj & Hpage).
    apply lookup_seq in Hj as [-> _]. by apply PDFReader_page_inv.
  - apply List.Forall_forall. intros d Hd.
    pose proof (filter_nonblank_Forall docs) as Hnb.
    eapply List.Forall_forall in Hnb; [|exact Hd]. split; [exact Hnb|].
    apply List.filter_In in Hd as [Hd _]. apply list_elem_of_In in Hd.
    apply list_elem_of_lookup in Hd as [i Hi].
    destruct (Forall2_lookup_r _ _ _ _ _ Hall Hi) as (j & _ & Hpage).
    apply PDFReader_page_inv in Hpage as (_ & label & _ & ->).
    split; [reflexivity|]. by exists label.
Qed.

(** X8: whatever the registered class, every Document its [load_file] returns
    names the file it was read from under the key [source]. *)
Theorem adapters_record_source (cls : reader_cls) (f : Path) (r : FileBaseReader)
    (docs : list Document) :
  instantiate cls f = Ok r ->
  load_file r (file r) = Ok docs ->
  Forall (fun d => metadata d !! "source" = Some f) docs.
Proof.
  destruct cls; cbn [instantiate].
  - intros [= <-]. cbn [PDFReader_init FileBaseReader_init load_file file]. intros Hlf.
    destruct (pypdf_PdfReader f) as [pdf|] eqn:Hpdf;
      [|by unfold PDFReader_load_file in Hlf; rewrite Hpdf in Hlf].
    pose proof (PDFReader_load_file_inv f pdf docs Hpdf Hlf) as Hall.
    apply List.Forall_forall. intros d Hd. apply list_elem_of_In in Hd.
    apply list_elem_of_lookup in Hd as [i Hi].
    destruct (Forall2_lookup_r _ _ _ _ _ Hall Hi) as (j & _ & Hpage).
    by apply PDFReader_page_inv in Hpage as (_ & label & _ & ->).
  - intros [= <-]. cbn [DocxReader_init FileBaseReader_init load_file file].
    unfold DocxReader_load_file. destruct (docx_Document f) as [ps|]; [|done].
    intros [= <-]. apply Forall_map. apply List.Forall_forall. intros p _.
    reflexivity.
  - intros [= <-]. cbn [ImageReader_init FileBaseReader_init load_file file].
    unfold ImageReader_load_file. destruct (image_to_string f); [|done].
    intros [= <-]. by constructor.
  - unfold AudioReader_init. destruct (whisper_load_model _) as [tr|]; [|done].
    cbn [mbind res_bind]. intros [= <-].
    cbn [FileBaseReader_init load_file file]. unfold AudioReader_load_file.
    destruct (tr f) as [[t lang]|]; [|done]. intros [= <-]. by constructor.
Qed.

Context {PF : Platform}.

Lemma read_file_default_shape (g : Path) (ds : list Document) :
  outcome (read_file None g) = Ok ds ->
  match _default_file_readers !! suffix g with
  | Some _ => exists t, ds = [ mkDocument t {[ "source" := g ]} ]
  | None => ds = []
  end.
Proof.
  rewrite outcome_read_file. cbn [custom_loader].
  destruct (_default_file_readers !! suffix g) as [cls|]; [|by intros [= <-]].
  destruct (instantiate cls g) as [r|] eqn:Hr; [|done].
  apply instantiate_defaults in Hr as [Hfile Hsingle]. cbn [mbind res_bind].
  destruct (load_file r (file r)) as [docs|e] eqn:Hlf;
    [|by rewrite (load_raises r e Hlf)].
  rewrite (load_unfold r docs Hlf), Hsingle. intros [= <-].
  unfold get_metadata. rewrite Hfile. eauto.
Qed.

(** X9: without custom loaders, a run that returns gives back exactly one
    Record for every resolved file whose extension is registered, in the
    order of the resolved list, and the metadata of that Record is the
    source path alone: page labels and the detected language do not reach
    the caller. *)
Theorem default_run_one_record_per_file input_dirs input_files flt mc
    (files : list Path) (rows : list OutDict) :
  outcome (resolve_files input_dirs input_files flt) = Ok files ->
  outcome (read_from_directory input_dirs input_files flt mc None) = Ok rows ->
  map out_metadata rows
  = map (fun f : Path => {[ "source" := f ]})
        (List.filter (fun f => bool_decide (is_Some (_default_file_readers !! suffix f)))
                     files).
Proof.
  intros Hres. rewrite (outcome_read_from_directory _ _ _ _ _ files Hres).
  destruct files as [|f0 files0] eqn:Hfiles; [by intros [= <-]|].
  rewrite <- Hfiles. clear Hfiles Hres.
  destruct (outcome (install_reader_requirements files)); [|done].
  rewrite outcome_dispatch.
  destruct (outcome (ThreadPoolExecutor mc)); [|done].
  destruct (outcome (mapM (read_file None) files)) as [results|] eqn:Hmap; [|done].
  intros [= <-]. apply outcome_mapM_Ok in Hmap.
  induction Hmap as [|g ds files' results' Hg _ IH]; [done|].
  cbn [concat List.filter]. rewrite map_app, map_app, IH.
  apply read_file_default_shape in Hg.
  destruct (_default_file_readers !! suffix g) as [cls|].
  - destruct Hg as [t ->]. by rewrite bool_decide_eq_true_2.
  - subst ds. rewrite bool_decide_eq_false_2; [done|]. by intros [? ?].
Qed.
End AdapterTheory.

(** ** The run of [read_from_directory], step by step *)

Lemma mapM_silent {A B : Type} (f : A -> M B) (l : list A) :
  (forall x, x ∈ l -> exists y, f x = Run [] (Ok y)) ->
  exists ys, mapM f l = Run [] (Ok ys).
Proof.
  induction l as [|x l IH]; intros Hf; [by exists []|].
  destruct (Hf x) as [y Hy]; [by apply elem_of_cons; left|].
  destruct IH as [ys Hys]; [intros z Hz; apply Hf; by apply elem_of_cons; right|].
  exists (y :: ys). simpl. by rewrite Hy, Hys.
Qed.

Lemma count_update_mapM {A B : Type} (f : A -> M B) (l : list A) :
  (forall x, count_occ event_eq_dec (log (f x)) EvUpdate = 1) ->
  count_occ event_eq_dec (log (mapM f l)) EvUpdate <= length l /\
  (forall ys, outcome (mapM f l) = Ok ys ->
     count_occ event_eq_dec (log (mapM f l)) EvUpdate = length l).
Proof.
  intros Hone. induction l as [|x l [IH1 IH2]]; [by split|].
  cbn [mapM length]. rewrite log_bind, outcome_bind.
  destruct (outcome (f x)) as [y|] eqn:Hy.
  - rewrite count_occ_app, Hone, log_bind, outcome_bind.
    destruct (outcome (mapM f l)) as [ys|] eqn:Hys.
    + cbn [log mret M_ret]. rewrite app_nil_r. split; [lia|].
      intros _ _. by rewrite (IH2 ys).
    + split; [lia|done].
  - rewrite Hone. split; [lia|done].
Qed.

Section RunTheory.
Context {SM : StrMethods} {LB : Libraries} {PF : Platform}.

Lemma Forall_log_resolve (P : event -> Prop) input_dirs input_files flt :
  (forall d, P (EvGetFiles d)) ->
  Forall P (log (resolve_files input_dirs input_files flt)).
Proof.
  intros HP. unfold resolve_files.
  apply Forall_log_bind; [|intros; apply Forall_log_silent].
  unfold collect_files.
  destruct input_files as [[|f1 fs]|]; try apply Forall_log_silent;
    (destruct input_dirs as [dirs|]; [|apply Forall_log_silent]);
    (apply Forall_log_bind; [|intros; apply Forall_log_silent]);
    apply Forall_log_mapM; intros x _;
    (apply Forall_log_bind; [by apply Forall_log_emit|]);
    intros; apply Forall_log_silent.
Qed.

Lemma log_read_from_directory input_dirs input_files flt mc loaders files :
  outcome (resolve_files input_dirs input_files flt) = Ok files ->
  log (read_from_directory input_dirs input_files flt mc loaders) =
    log (resolve_files input_dirs input_files flt) ++
    match files with
    | [] => []
    | _ :: _ =>
        log (install_reader_requirements files) ++
        match outcome (install_reader_requirements files) with
        | Ok _ => log (dispatch mc loaders files)
        | Raise _ => []
        end
    end.
Proof.
  intros Hres. unfold read_from_directory. rewrite log_bind, Hres. f_equal.
  destruct files as [|f files]; [done|].
  rewrite decide_False by done. rewrite log_bind.
  destruct (outcome (install_reader_requirements (f :: files))); [done|].
  by rewrite app_nil_r.
Qed.

Lemma log_dispatch mc loaders (files : list Path) :
  log (dispatch mc loaders files) =
    EvTotal (length files) ::
    match outcome (ThreadPoolExecutor mc) with
    | Ok _ => log (mapM (read_file loaders) files)
    | Raise _ => []
    end ++ [EvClose].
Proof.
  unfold dispatch. rewrite log_emit_bind. cbn [try_finally log emit]. f_equal. f_equal.
  rewrite log_bind.
  assert (Htpe : log (ThreadPoolExecutor mc) = []).
  { destruct mc as [n|]; simpl; [by destruct (decide _)|done]. }
  rewrite Htpe. destruct (outcome (ThreadPoolExecutor mc)); [|done].
  cbn [app]. rewrite log_bind. destruct (outcome (mapM _ _)); [|done].
  cbn [log mret M_ret]. by rewrite app_nil_r.
Qed.

Lemma count_update_read_file loaders (f : Path) :
  count_occ event_eq_dec (log (read_file loaders f)) EvUpdate = 1.
Proof.
  rewrite log_read_file. cbn [count_occ].
  destruct (custom_loader loaders (suffix f));
    [|destruct (_default_file_readers !! suffix f)];
    destruct (event_eq_dec _ EvUpdate); try done;
    destruct (event_eq_dec _ _); done.
Qed.

Lemma install_unregistered (files : list Path) :
  (forall f, f ∈ files -> _default_file_readers !! suffix f = None) ->
  install_reader_requirements files = Run [] (Ok tt).
Proof.
  intros Hnone. unfold install_reader_requirements.
  edestruct (mapM_silent
               (fun file_ext : string =>
                  match _default_file_readers !! file_ext with
                  | Some cls => setup cls
                  | None => mret tt
                  end)
               (elements (list_to_set (map suffix files) : gset string))) as [ys Hys].
  - intros ext Hext. apply elem_of_elements, elem_of_list_to_set in Hext.
    apply list_elem_of_In, List.in_map_iff in Hext as (f & <- & Hf).
    apply list_elem_of_In in Hf. rewrite (Hnone f Hf). by exists tt.
  - by rewrite Hys.
Qed.

(** X10: the early exit: when the resolved file set is empty the operation
    returns the empty list right after the resolution.  Nothing is
    installed, no pool is created (a bound that is not positive goes
    unnoticed) and no progress bar is opened. *)
Theorem empty_file_set_returns_early input_dirs input_files flt mc loaders :
  outcome (resolve_files input_dirs input_files flt) = Ok [] ->
  outcome (read_from_directory input_dirs input_files flt mc loaders) = Ok [] /\
  log (read_from_directory input_dirs input_files flt mc loaders)
  = log (resolve_files input_dirs input_files flt).
Proof.
  intros Hres. split.
  - by rewrite (outcome_read_from_directory _ _ _ _ _ [] Hres).
  - by rewrite (log_read_from_directory _ _ _ _ _ [] Hres), app_nil_r.
Qed.

(** X11: called with no directories and with [input_files] missing or empty,
    the operation raises [TypeError] before doing anything. *)
Theorem no_input_raises_TypeError (input_files : option (list string)) flt mc loaders :
  input_files = None \/ input_files = Some [] ->
  read_from_directory None input_files flt mc loaders = Run [] (Raise TypeError).
Proof. by intros [-> | ->]. Qed.

(** X12: when [input_files] is missing or empty, every directory of
    [input_dirs] is traversed once, in order (a single string counting as
    a list of one), and the resolved file set is the traversal results put
    together and deduplicated. *)
Theorem directories_traversed_in_order (dirs : string + list string)
    (input_files : option (list string)) flt :
  input_files = None \/ input_files = Some [] ->
  let ds := match dirs with inl d => [d] | inr l => l end in
  resolve_files (Some dirs) input_files flt
  = Run (map EvGetFiles ds)
        (Ok (dedup (concat (map (fun d => get_files d flt) ds)))).
Proof.
  intros Hfalsy ds.
  assert (Hc : collect_files (Some dirs) input_files flt
               = Run (map EvGetFiles ds)
                     (Ok (concat (map (fun d => get_files d flt) ds)))).
  { assert (Hm : mapM (fun input_dir => emit (EvGetFiles input_dir);;
                                        mret (get_files input_dir flt)) ds
                 = Run (map EvGetFiles ds) (Ok (map (fun d => get_files d flt) ds))).
    { induction ds as [|d ds' IH]; [done|]. cbn [mapM]. rewrite IH.
      unfold mbind, M_bind, emit, mret, M_ret. simpl. by rewrite app_nil_r. }
    destruct Hfalsy as [-> | ->]; cbn [collect_files]; fold ds; rewrite Hm;
      unfold mbind, M_bind; cbn [outcome log mret M_ret]; by rewrite app_nil_r. }
  unfold resolve_files. rewrite Hc. unfold mbind, M_bind. cbn [outcome log mret M_ret].
  by rewrite app_nil_r.
Qed.

(** X13: A run over files none of which has a custom loader or a registered
    extension returns the empty list: nothing is installed, no loader is
    called, and the log holds traversals, the progress bar and one warning
    and one progress update per file only. *)
Theorem unsupported_files_contribute_nothing input_dirs input_files flt mc loaders
    (files : list Path) :
  outcome (resolve_files input_dirs input_files flt) = Ok files ->
  (forall f, f ∈ files ->
     custom_loader loaders (suffix f) = None /\
     _default_file_readers !! suffix f = None) ->
  outcome (ThreadPoolExecutor mc) = Ok tt ->
  outcome (read_from_directory input_dirs input_files flt mc loaders) = Ok [] /\
  Forall (fun e => match e with
                   | EvGetFiles _ | EvTotal _ | EvWarning _ | EvUpdate | EvClose => True
                   | _ => False
                   end)
         (log (read_from_directory input_dirs input_files flt mc loaders)).
Proof.
  intros Hres Hnone Htpe.
  assert (Hinst : install_reader_requirements files = Run [] (Ok tt)).
  { apply install_unregistered. intros f Hf. by apply Hnone. }
  assert (Hmap : exists results,
             outcome (mapM (read_file loaders) files) = Ok results /\
             concat results = []).
  { clear Hres Hinst. induction files as [|f files IH]; [by exists []|].
    destruct IH as (results & Hr & Hc);
      [intros g Hg; apply Hnone; by apply elem_of_cons; right|].
    exists ([] :: results). split; [|done].
    cbn [mapM]. rewrite outcome_bind, outcome_read_file.
    destruct (Hnone f) as [-> ->]; [by apply elem_of_cons; left|].
    by rewrite outcome_bind, Hr. }
  destruct Hmap as (results & Hresults & Hconcat). split.
  - rewrite (outcome_read_from_directory _ _ _ _ _ files Hres).
    destruct files as [|f0 files0] eqn:Hfiles; [done|]. rewrite <- Hfiles in *.
    rewrite Hinst. cbn [outcome]. rewrite outcome_dispatch, Htpe, Hresults.
    by rewrite Hconcat.
  - rewrite (log_read_from_directory _ _ _ _ _ files Hres).
    apply Forall_app. split; [by apply Forall_log_resolve|].
    destruct files as [|f0 files0] eqn:Hfiles; [constructor|]. rewrite <- Hfiles in *.
    rewrite Hinst. cbn [log outcome app]. rewrite log_dispatch, Htpe.
    constructor; [done|]. apply Forall_app. split; [|by repeat constructor].
    apply Forall_log_mapM. intros g Hg. rewrite log_read_file.
    destruct (Hnone g Hg) as [-> ->]. by repeat constructor.
Qed.
End RunTheory.

Section RunFailures.
Context {SM : StrMethods} {LB : Libraries} {PF : Platform}.

(** X14: A concurrency bound that is not positive, with a non-empty file set:
    the requirements are installed first, then the operation raises
    [ValueError]; the progress bar is opened and closed, and no file is
    read. *)
Theorem nonpositive_bound_raises input_dirs input_files flt (n : Z) loaders
    (files : list Path) :
  outcome (resolve_files input_dirs input_files flt) = Ok files ->
  files <> [] ->
  outcome (install_reader_requirements files) = Ok tt ->
  (n <= 0)%Z ->
  outcome (read_from_directory input_dirs input_files flt (Some n) loaders)
    = Raise ValueError /\
  log (read_from_directory input_dirs input_files flt (Some n) loaders)
    = log (resolve_files input_dirs input_files flt)
      ++ log (install_reader_requirements files)
      ++ [EvTotal (length files); EvClose].
Proof.
  intros Hres Hne Hinst Hn.
  assert (Htpe : outcome (ThreadPoolExecutor (Some n)) = Raise ValueError).
  { simpl. by rewrite decide_True. }
  split.
  - rewrite (outcome_read_from_directory _ _ _ _ _ files Hres).
    destruct files as [|f0 files0] eqn:Hfiles; [done|]. rewrite <- Hfiles in *.
    by rewrite Hinst, outcome_dispatch, Htpe.
  - rewrite (log_read_from_directory _ _ _ _ _ files Hres).
    destruct files as [|f0 files0] eqn:Hfiles; [done|]. rewrite <- Hfiles in *.
    by rewrite Hinst, log_dispatch, Htpe.
Qed.

(** X15: an exception of the installer is the exception of the operation, and
    the run stops there: no progress bar is opened and no file is read. *)
Theorem installer_failure_aborts input_dirs input_files flt mc loaders
    (files : list Path) (e : exn) :
  outcome (resolve_files input_dirs input_files flt) = Ok files ->
  outcome (install_reader_requirements files) = Raise e ->
  outcome (read_from_directory input_dirs input_files flt mc loaders) = Raise e /\
  log (read_from_directory input_dirs input_files flt mc loaders)
    = log (resolve_files input_dirs input_files flt)
      ++ log (install_reader_requirements files).
Proof.
  intros Hres Hinst.
  assert (Hne : files <> []).
  { intros ->. by rewrite (install_unregistered []) in Hinst
      by (intros f Hf; by apply elem_of_nil in Hf). }
  split.
  - rewrite (outcome_read_from_directory _ _ _ _ _ files Hres).
    destruct files; [done|]. by rewrite Hinst.
  - rewrite (log_read_from_directory _ _ _ _ _ files Hres).
    destruct files; [done|]. by rewrite Hinst, app_nil_r.
Qed.

(** X16: the progress bar of a dispatch: it is opened with the number of
    files as total and closed as the last action on every exit; the
    updates never exceed the total, and they reach it whenever the
    dispatch returns. *)
Theorem dispatch_progress mc loaders (files : list Path) :
  head (log (dispatch mc loaders files)) = Some (EvTotal (length files)) /\
  last (log (dispatch mc loaders files)) = Some EvClose /\
  count_occ event_eq_dec (log (dispatch mc loaders files)) EvUpdate <= length files /\
  (forall rows, outcome (dispatch mc loaders files) = Ok rows ->
     count_occ event_eq_dec (log (dispatch mc loaders files)) EvUpdate = length files).
Proof.
  rewrite log_dispatch. split; [done|]. split.
  { by rewrite app_comm_cons, last_snoc. }
  pose proof (count_update_mapM (read_file loaders) files
                (count_update_read_file loaders)) as [Hle Heq].
  cbn [count_occ]. destruct (event_eq_dec (EvTotal _) EvUpdate); [done|].
  rewrite count_occ_app. cbn [count_occ].
  destruct (event_eq_dec EvClose EvUpdate); [done|]. rewrite Nat.add_0_r.
  split.
  - destruct (outcome (ThreadPoolExecutor mc)); [exact Hle|simpl; lia].
  - intros rows. rewrite outcome_dispatch.
    destruct (outcome (ThreadPoolExecutor mc)); [|done].
    destruct (outcome (mapM (read_file loaders) files)) as [results|] eqn:Hr; [|done].
    intros _. by apply (Heq results).
Qed.

Lemma setup_runs_none (cls : reader_cls) (l : list event) :
  Forall (fun e => forall c, e <> EvSetup c) l -> setup_runs cls l = 0.
Proof.
  intros Hall. unfold setup_runs. apply count_occ_not_In. intros Hin.
  eapply List.Forall_forall in Hall; [|exact Hin]. by eapply Hall.
Qed.

(** X17: the set-up runs of a whole run are those of the installer step,
    whatever the custom loaders and the concurrency bound: a custom loader
    for an extension does not spare the set-up of the adapter registered
    for it.  When the installer returns, a class is set up once for every
    distinct registered extension of the resolved files. *)
Theorem run_setup_ignores_loaders input_dirs input_files flt mc loaders
    (files : list Path) (cls : reader_cls) :
  outcome (resolve_files input_dirs input_files flt) = Ok files ->
  outcome (install_reader_requirements files) = Ok tt ->
  setup_runs cls (log (read_from_directory input_dirs input_files flt mc loaders))
  = length (List.filter
              (fun ext => bool_decide (_default_file_readers !! ext = Some cls))
              (remove_dups (map suffix files))).
Proof.
  intros Hres Hinst.
  assert (Hinstall : setup_runs cls (log (install_reader_requirements files))
            = length (List.filter
                        (fun ext => bool_decide (_default_file_readers !! ext = Some cls))
                        (remove_dups (map suffix files)))).
  { unfold install_reader_requirements in *.
    apply outcome_bind_inv in Hinst as (rs & Hrs & _).
    rewrite log_bind, Hrs. cbn [log mret M_ret]. rewrite app_nil_r.
    rewrite (setup_runs_exts cls _ rs Hrs).
    apply length_filter_Permutation, elements_list_to_set_remove_dups. }
  rewrite (log_read_from_directory _ _ _ _ _ files Hres), setup_runs_app.
  rewrite (setup_runs_none cls (log (resolve_files _ _ _)))
    by (by apply Forall_log_resolve).
  destruct files as [|f0 files0] eqn:Hfiles; [by rewrite <- Hinstall|].
  rewrite <- Hfiles in *. rewrite Hinst, setup_runs_app, Hinstall.
  rewrite (setup_runs_none cls (log (dispatch _ _ _))); [lia|].
  apply Forall_log_dispatch; [done|done|].
  intros f _. rewrite log_read_file.
  repeat constructor; [|done].
  destruct (custom_loader loaders (suffix f)); [done|].
  by destruct (_default_file_readers !! suffix f).
Qed.
End RunFailures.

(** X18: [setup] always announces itself and then asks for every system
    package; only a library requirement can make it raise, and it returns
    exactly when the check of each library requirement returns. *)
Theorem setup_raises_only_on_requirements {PF : Platform} (cls : reader_cls) :
  (exists rest,
      log (setup cls) = EvSetup cls :: map EvAptGet (system_requirements cls) ++ rest) /\
  (outcome (setup cls) = Ok tt <->
   Forall (fun pkg => check_availability_and_install pkg = Ok tt) (requirements cls)).
Proof.
  destruct cls; unfold setup, lift, emit; cbn [system_requirements requirements mapM];
    unfold mbind, M_bind, mret, M_ret; cbn [outcome log app map].
  all: repeat match goal with
         | |- context [check_availability_and_install ?p] =>
             let H := fresh "Hc" in
             destruct (check_availability_and_install p) as [[]|] eqn:H;
             cbn [outcome log app]
         end.
  all: split; [eexists; reflexivity|].
  all: split;
         [ intros ?; try done; repeat constructor; done
         | intros Hall; try done;
           repeat match goal with
                  | H : Forall _ (_ :: _) |- _ => inversion H; subst; clear H
                  end; congruence ].
Qed.

(** ** [read_youtube_audio] *)

Lemma yout_bind {A B : Type} (m : Y A) (k : A -> Y B) :
  yout (m ≫= k) =
    match yout m with
    | Ok a => yout (k a)
    | Raise e => Raise e
    end.
Proof. unfold mbind, Y_bind. by destruct (yout m). Qed.

Lemma ylog_bind {A B : Type} (m : Y A) (k : A -> Y B) :
  ylog (m ≫= k) =
    match yout m with
    | Ok a => ylog m ++ ylog (k a)
    | Raise _ => ylog m
    end.
Proof. unfold mbind, Y_bind. by destruct (yout m). Qed.

Lemma Forall_ylog_bind {A B : Type} (P : yt_event -> Prop) (m : Y A) (k : A -> Y B) :
  Forall P (ylog m) -> (forall a, Forall P (ylog (k a))) -> Forall P (ylog (m ≫= k)).
Proof.
  intros Hm Hk. rewrite ylog_bind. destruct (yout m); [|done].
  apply Forall_app; auto.
Qed.

Lemma Forall_ylog_mapM {A B : Type} (P : yt_event -> Prop) (f : A -> Y B) (l : list A) :
  (forall x, Forall P (ylog (f x))) -> Forall P (ylog (mapM f l)).
Proof.
  intros Hf. induction l as [|x l IH]; simpl; [constructor|].
  apply Forall_ylog_bind; [done|]. intros y.
  apply Forall_ylog_bind; [done|]. intros; constructor.
Qed.

Lemma yout_mapM_Ok {A B : Type} (f : A -> Y B) (l : list A) (rs : list B) :
  yout (mapM f l) = Ok rs -> Forall2 (fun x r => yout (f x) = Ok r) l rs.
Proof.
  revert rs. induction l as [|x l IH]; intros rs; simpl.
  - intros [= <-]. constructor.
  - rewrite yout_bind. destruct (yout (f x)) as [y|] eqn:Hy; [|done].
    rewrite yout_bind. destruct (yout (mapM f l)) as [k|]; [|done].
    intros [= <-]. constructor; auto.
Qed.

(** The keys of the dictionary after an assignment. *)
Lemma dict_set_keys (k v : string) (d : list (string * string)) :
  map fst (dict_set k v d)
  = if decide (k ∈ map fst d) then map fst d else map fst d ++ [k].
Proof.
  induction d as [|[k' v'] d IH]; cbn [dict_set map fst].
  - destruct (decide (k ∈ [])) as [Hin|_]; [by apply elem_of_nil in Hin|done].
  - destruct (String.eqb_spec k' k) as [->|Hne]; cbn [map fst].
    + destruct (decide (k ∈ k :: map fst d)) as [_|Hnin]; [done|].
      exfalso. apply Hnin, list_elem_of_here.
    + rewrite IH. destruct (decide (k ∈ map fst d)) as [Hin|Hnin];
        destruct (decide (k ∈ k' :: map fst d)) as [Hin'|Hnin']; try done.
      * exfalso. by apply Hnin', list_elem_of_further.
      * apply elem_of_cons in Hin' as [?|?]; congruence.
Qed.

Lemma dict_set_fresh (k v : string) (d : list (string * string)) :
  k ∉ map fst d -> dict_set k v d = d ++ [(k, v)].
Proof.
  induction d as [|[k' v'] d IH]; cbn [dict_set map fst app]; [done|].
  intros Hnin. apply not_elem_of_cons in Hnin as [Hne Hnin].
  destruct (String.eqb_spec k' k) as [->|_]; [done|]. by rewrite IH.
Qed.

Lemma zip_for_keys (urls_rev : list string) (blobs : list (res string))
    (d d' : list (string * string)) :
  NoDup (map fst d) ->
  zip_for urls_rev blobs d = Ok d' ->
  NoDup (map fst d') /\
  (forall k, k ∈ map fst d' -> k ∈ map fst d \/ k ∈ urls_rev) /\
  length d' <= length d + length urls_rev.
Proof.
  revert blobs d. induction urls_rev as [|u us IH]; intros blobs d Hnd; simpl.
  - intros [= <-]. repeat split; [done|auto|lia].
  - destruct blobs as [|[path|e] bs]; [|intros Hz|done].
    + intros [= <-]. repeat split; [done|auto|lia].
    + assert (Hnd' : NoDup (map fst (dict_set u path d))).
      { rewrite dict_set_keys. destruct (decide _); [done|].
        apply NoDup_app. split; [done|]. split; [|apply NoDup_singleton].
        intros x Hx Hx'. apply list_elem_of_singleton in Hx' as ->. contradiction. }
      destruct (IH bs _ Hnd' Hz) as (H1 & H2 & H3).
      assert (Hlen : length (dict_set u path d) <= S (length d)).
      { rewrite <- (length_map fst (dict_set u path d)), dict_set_keys.
        destruct (decide _); rewrite ?length_app, !length_map; simpl; lia. }
      split; [done|]. split; [|lia].
      intros k Hk. destruct (H2 k Hk) as [Hin|Hin].
      * rewrite dict_set_keys in Hin. destruct (decide _).
        -- by left.
        -- apply elem_of_app in Hin as [?|Hin]; [by left|].
           apply list_elem_of_singleton in Hin as ->. right. apply list_elem_of_here.
      * right. by apply list_elem_of_further.
Qed.

Lemma zip_for_distinct (us : list string) (paths : list string)
    (d : list (string * string)) :
  NoDup (map fst d ++ us) ->
  length paths = length us ->
  zip_for us (map Ok paths) d = Ok (d ++ zip us paths).
Proof.
  revert paths d. induction us as [|u us IH]; intros paths d Hnd Hlen.
  - simpl. by rewrite app_nil_r.
  - destruct paths as [|p paths]; [done|]. simpl.
    apply NoDup_app in Hnd as (Hd & Hdisj & Hus).
    apply NoDup_cons in Hus as [Hu Hus].
    assert (Hfresh : u ∉ map fst d).
    { intros Hin. apply (Hdisj u Hin), list_elem_of_here. }
    rewrite (dict_set_fresh u p d Hfresh), IH.
    + by rewrite <- app_assoc.
    + rewrite map_app. simpl. rewrite <- app_assoc. simpl.
      apply NoDup_app. split; [done|]. split.
      * intros x Hx [->|Hx']%elem_of_cons; [done|].
        apply (Hdisj x Hx). by apply list_elem_of_further.
      * by apply NoDup_cons.
    + simpl in Hlen. lia.
Qed.

Lemma rev_reverse {A : Type} (l : list A) : rev l = reverse l.
Proof. unfold reverse. apply rev_alt. Qed.

Section YoutubeTheory.
Context {AP : AudioPlatform}.

Lemma yout_youtube_body (urls : list string) (dir : string) (mn : option string) :
  yout (youtube_body urls dir mn) =
    match zip_for (rev urls) (yield_blobs urls dir) [] with
    | Ok audio_paths =>
        match whisper_model mn with
        | Ok model => yout (mapM (transcribe_item model) audio_paths)
        | Raise e => Raise e
        end
    | Raise e => Raise e
    end.
Proof.
  unfold youtube_body. rewrite yout_bind.
  assert (Hpre : yout (match urls with
                       | [] => mret tt
                       | _ :: _ => yemit (YtDownload urls dir)
                       end) = Ok tt) by (by destruct urls).
  rewrite Hpre, yout_bind. cbn [ylift yout].
  destruct (zip_for _ _ _); [|done]. rewrite yout_bind. cbn [ylift yout].
  by destruct (whisper_model mn).
Qed.

Lemma Forall_ylog_youtube_body (P : yt_event -> Prop) (urls : list string)
    (dir : string) (mn : option string) :
  (urls <> [] -> P (YtDownload urls dir)) ->
  (forall p, P (YtTranscribe p)) ->
  Forall P (ylog (youtube_body urls dir mn)).
Proof.
  intros Hd Ht. unfold youtube_body.
  apply Forall_ylog_bind.
  { destruct urls; [constructor|]. constructor; [by apply Hd|constructor]. }
  intros _. apply Forall_ylog_bind; [constructor|]. intros audio_paths.
  apply Forall_ylog_bind; [constructor|]. intros model.
  apply Forall_ylog_mapM. intros item. unfold transcribe_item.
  apply Forall_ylog_bind; [by repeat constructor|]. intros _.
  apply Forall_ylog_bind; [constructor|]. intros; constructor.
Qed.

Lemma read_youtube_audio_temp (url : string + list string) (sd mn : option string) :
  (forall d, sd = Some d -> isdir d = false) ->
  let urls := match url with inl u => [u] | inr us => us end in
  read_youtube_audio url sd mn
  = YRun (YtMkdtemp mkdtemp :: ylog (youtube_body urls mkdtemp mn) ++ [YtRmtree mkdtemp])
         (yout (youtube_body urls mkdtemp mn)).
Proof.
  intros Hsd urls. unfold read_youtube_audio. fold urls.
  assert (Htemp : match sd with None => true | Some dir => negb (isdir dir) end = true).
  { destruct sd as [d|]; [|done]. by rewrite (Hsd d eq_refl). }
  rewrite Htemp. reflexivity.
Qed.

Lemma read_youtube_audio_dir (url : string + list string) (d : string)
    (mn : option string) :
  isdir d = true ->
  let urls := match url with inl u => [u] | inr us => us end in
  read_youtube_audio url (Some d) mn
  = YRun (ylog (youtube_body urls d mn)) (yout (youtube_body urls d mn)).
Proof.
  intros Hd urls. unfold read_youtube_audio. fold urls. rewrite Hd.
  cbn [negb default]. unfold mbind, Y_bind, ytry_finally, mret, Y_ret.
  cbn [yout ylog app]. by rewrite app_nil_r.
Qed.

(** X19: without a usable [save_dir] (none given, or one that is no
    directory) a temporary directory is created first, the download goes
    there, and the directory is removed as the last action of the call,
    exactly once, whether the call returns or raises. *)
Theorem temp_dir_removed_on_every_exit (url : string + list string)
    (save_dir model_name : option string) :
  (forall d, save_dir = Some d -> isdir d = false) ->
  let l := ylog (read_youtube_audio url save_dir model_name) in
  head l = Some (YtMkdtemp mkdtemp) /\
  last l = Some (YtRmtree mkdtemp) /\
  count_occ yt_event_eq_dec l (YtRmtree mkdtemp) = 1 /\
  Forall (fun e => forall us d, e = YtDownload us d -> d = mkdtemp) l.
Proof.
  intros Hsd l. unfold l. rewrite (read_youtube_audio_temp url save_dir model_name Hsd).
  cbn [ylog]. set (urls := match url with inl u => [u] | inr us => us end).
  split; [done|]. split; [by rewrite app_comm_cons, last_snoc|]. split.
  - cbn [count_occ]. destruct (yt_event_eq_dec _ _); [done|].
    rewrite count_occ_app. cbn [count_occ].
    destruct (yt_event_eq_dec _ _); [|done].
    rewrite (proj1 (count_occ_not_In yt_event_eq_dec _ _)); [done|].
    intros Hin.
    assert (Hall : Forall (fun e => forall d, e <> YtRmtree d)
                     (ylog (youtube_body urls mkdtemp model_name)))
      by (by apply Forall_ylog_youtube_body).
    eapply List.Forall_forall in Hall; [|exact Hin]. by eapply Hall.
  - constructor; [done|]. apply Forall_app. split; [|by repeat constructor].
    apply Forall_ylog_youtube_body; [|done]. by intros _ us d [= _ <-].
Qed.

(** X20: A [save_dir] that is a directory is used for the download and is
    left alone: no temporary directory is created and nothing is ever
    removed. *)
Theorem caller_directory_kept (url : string + list string) (d : string)
    (model_name : option string) :
  isdir d = true ->
  Forall (fun e => match e with
                   | YtMkdtemp _ | YtRmtree _ => False
                   | YtDownload _ dir => dir = d
                   | YtTranscribe _ => True
                   end)
         (ylog (read_youtube_audio url (Some d) model_name)).
Proof.
  intros Hd. rewrite (read_youtube_audio_dir url d model_name Hd). cbn [ylog].
  by apply Forall_ylog_youtube_body.
Qed.

Lemma transcribe_item_inv (model : string -> res (string * string))
    (item : string * string) (row : OutDict) :
  yout (transcribe_item model item) = Ok row ->
  exists lang,
    model (snd item) = Ok (out_text row, lang) /\
    out_metadata row = {[ "source" := fst item; "language" := lang ]}.
Proof.
  unfold transcribe_item. rewrite yout_bind. cbn [yemit yout].
  rewrite yout_bind. cbn [ylift yout].
  destruct (model (snd item)) as [[t lang]|]; [|done].
  intros [= <-]. by exists lang.
Qed.

Lemma yout_read_youtube_audio (url : string + list string) (sd mn : option string) :
  let urls := match url with inl u => [u] | inr us => us end in
  let dir := match sd with
             | Some d => if isdir d then d else mkdtemp
             | None => mkdtemp
             end in
  yout (read_youtube_audio url sd mn) = yout (youtube_body urls dir mn).
Proof.
  intros urls dir. destruct sd as [d|].
  - destruct (isdir d) eqn:Hd.
    + by rewrite (read_youtube_audio_dir url d mn Hd).
    + rewrite (read_youtube_audio_temp url (Some d) mn); [done|].
      by intros ? [= <-].
  - by rewrite (read_youtube_audio_temp url None mn).
Qed.

(** X21: A call that returns gives at most one Record per distinct URL: the
    sources of the Records are URLs of the request, no source occurs
    twice, and there are no more Records than URLs. *)
Theorem one_record_per_distinct_url (url : string + list string)
    (save_dir model_name : option string) (docs : list OutDict) :
  let urls := match url with inl u => [u] | inr us => us end in
  yout (read_youtube_audio url save_dir model_name) = Ok docs ->
  exists srcs : list string,
    map out_source docs = map Some srcs /\
    NoDup srcs /\
    (forall u, u ∈ srcs -> u ∈ urls) /\
    length docs <= length urls.
Proof.
  intros urls. rewrite yout_read_youtube_audio, yout_youtube_body. fold urls.
  destruct (zip_for _ _ _) as [audio_paths|] eqn:Hzip; [|done].
  destruct (whisper_model model_name) as [model|]; [|done].
  intros Hall%yout_mapM_Ok.
  destruct (zip_for_keys _ _ [] audio_paths (NoDup_nil_2) Hzip) as (Hnd & Hsub & Hlen).
  exists (map fst audio_paths). split; [|split; [done|split]].
  - clear Hzip Hnd Hsub Hlen.
    induction Hall as [|item row items rows Hrow _ IH]; [done|].
    cbn [map]. rewrite IH. f_equal.
    apply transcribe_item_inv in Hrow as (lang & _ & Hmeta).
    unfold out_source. by rewrite Hmeta.
  - intros u Hu. destruct (Hsub u Hu) as [Hin|Hin]; [by apply elem_of_nil in Hin|].
    rewrite rev_reverse in Hin. exact (proj1 (elem_of_reverse _ _) Hin).
  - apply Forall2_length in Hall. rewrite <- Hall.
    rewrite rev_reverse, length_reverse in Hlen. simpl in Hlen. lia.
Qed.

(** X22: with distinct URLs and one blob per URL, the blobs are attributed to
    the URLs taken from the last to the first: the Records come back in
    reverse URL order, the [i]-th holding the transcription of the [i]-th
    blob under the URL at position [i] from the end. *)
Theorem blobs_paired_with_reversed_urls (url : string + list string)
    (save_dir model_name : option string) (paths : list string) (docs : list OutDict) :
  let urls := match url with inl u => [u] | inr us => us end in
  let dir := match save_dir with
             | Some d => if isdir d then d else mkdtemp
             | None => mkdtemp
             end in
  NoDup urls ->
  yield_blobs urls dir = map Ok paths ->
  length paths = length urls ->
  yout (read_youtube_audio url save_dir model_name) = Ok docs ->
  exists model,
    whisper_model model_name = Ok model /\
    Forall2 (fun (up : string * string) (row : OutDict) =>
               exists lang,
                 model (snd up) = Ok (out_text row, lang) /\
                 out_metadata row = {[ "source" := fst up; "language" := lang ]})
            (zip (rev urls) paths) docs.
Proof.
  intros urls dir Hnd Hblobs Hlen.
  rewrite yout_read_youtube_audio, yout_youtube_body. fold urls dir.
  rewrite Hblobs, (zip_for_distinct (rev urls) paths []).
  - cbn [app]. destruct (whisper_model model_name) as [model|]; [|done].
    intros Hall%yout_mapM_Ok. exists model. split; [done|].
    induction Hall as [|item row items rows Hrow _ IH]; constructor; [|exact IH].
    by apply transcribe_item_inv.
  - cbn [map app]. by rewrite rev_reverse, reverse_Permutation.
  - by rewrite rev_reverse, length_reverse.
Qed.

(** X23: an empty list of URLs: nothing is downloaded or transcribed, but the
    speech model is loaded all the same, so the call returns the empty
    list if the model loads and raises the loader's exception if not. *)
Theorem no_urls_no_download (save_dir model_name : option string) :
  yout (read_youtube_audio (inr []) save_dir model_name)
    = match whisper_model model_name with
      | Ok _ => Ok []
      | Raise e => Raise e
      end /\
  Forall (fun e => match e with
                   | YtDownload _ _ | YtTranscribe _ => False
                   | _ => True
                   end)
         (ylog (read_youtube_audio (inr []) save_dir model_name)).
Proof.
  split.
  - rewrite yout_read_youtube_audio, yout_youtube_body. cbn [rev zip_for].
    by destruct (whisper_model model_name).
  - assert (Hbody : forall dir, ylog (youtube_body [] dir model_name) = []).
    { intros dir. unfold youtube_body. rewrite ylog_bind. cbn [mret Y_ret yout ylog app].
      rewrite ylog_bind. cbn [rev zip_for ylift yout ylog app].
      rewrite ylog_bind. cbn [ylift yout ylog].
      by destruct (whisper_model model_name). }
    destruct save_dir as [d|]; [destruct (isdir d) eqn:Hd|].
    + rewrite (read_youtube_audio_dir _ d model_name Hd). cbn [ylog].
      rewrite Hbody. constructor.
    + rewrite (read_youtube_audio_temp _ (Some d) model_name) by (by intros ? [= <-]).
      cbn [ylog]. rewrite Hbody. by repeat constructor.
    + rewrite (read_youtube_audio_temp _ None model_name) by done.
      cbn [ylog]. rewrite Hbody. by repeat constructor.
Qed.
End YoutubeTheory.

(** ** [RenameFeatureGenerator] *)

Lemma replace_dots_no_dot (name : string) : contains_dot (replace_dots name) = false.
Proof.
  induction name as [|c s IH]; [done|]. simpl.
  destruct (Ascii.eqb_spec c ".") as [->|Hne]; simpl; [exact IH|].
  rewrite IH. by destruct (Ascii.eqb_spec c ".").
Qed.

Lemma replace_dots_id (name : string) :
  contains_dot name = false -> replace_dots name = name.
Proof.
  induction name as [|c s IH]; [done|]. simpl.
  destruct (Ascii.eqb c "."); [done|]. simpl. intros Hs. by rewrite IH.
Qed.

Lemma renamed_ok_empty : renamed_ok ∅.
Proof. intros k v Hk. by rewrite lookup_empty in Hk. Qed.

Lemma renamed_ok_dotless (renamed : gmap string string) (name : string) :
  renamed_ok renamed -> contains_dot name = false -> renamed !! name = None.
Proof.
  intros Hok Hname. destruct (renamed !! name) as [v|] eqn:Hv; [|done].
  destruct (Hok name v Hv). congruence.
Qed.

Lemma fit_collect_lookup (pa_schema : list SchemaField)
    (renamed : gmap string string) (u : bool) (k : string) :
  (fit_collect renamed u pa_schema).1 !! k
  = if decide (k ∈ map field_name pa_schema /\ contains_dot k = true)
    then Some (replace_dots k) else renamed !! k.
Proof.
  revert renamed u. induction pa_schema as [|fld rest IH]; intros renamed u.
  - cbn [fit_collect map fst]. rewrite decide_False; [done|].
    intros [Hin _]. by apply elem_of_nil in Hin.
  - cbn [fit_collect map]. destruct (contains_dot (field_name fld)) eqn:Hdot.
    + rewrite IH. destruct (decide (k ∈ map field_name rest /\ _)) as [[Hin Hk]|Hnot].
      * rewrite decide_True; [done|]. split; [by apply list_elem_of_further|done].
      * destruct (decide (field_name fld = k)) as [<-|Hne].
        -- rewrite lookup_insert_eq, decide_True; [done|].
           split; [apply list_elem_of_here|done].
        -- rewrite lookup_insert_ne by done. rewrite decide_False; [done|].
           intros [[?|?]%elem_of_cons ?]; [congruence|tauto].
    + rewrite IH. destruct (decide (k ∈ map field_name rest /\ _)) as [[Hin Hk]|Hnot].
      * rewrite decide_True; [done|]. split; [by apply list_elem_of_further|done].
      * rewrite decide_False; [done|].
        intros [[->|?]%elem_of_cons ?]; [congruence|tauto].
Qed.

Lemma fit_collect_useful (pa_schema : list SchemaField)
    (renamed : gmap string string) (u : bool) :
  (fit_collect renamed u pa_schema).2
  = u || existsb (fun fld => contains_dot (field_name fld)) pa_schema.
Proof.
  revert renamed u. induction pa_schema as [|fld rest IH]; intros renamed u.
  - cbn. by rewrite orb_false_r.
  - cbn [fit_collect existsb]. destruct (contains_dot (field_name fld)).
    + rewrite IH. by rewrite orb_true_r.
    + rewrite IH. done.
Qed.

Lemma fit_collect_ok (pa_schema : list SchemaField)
    (renamed : gmap string string) (u : bool) :
  renamed_ok renamed -> renamed_ok (fit_collect renamed u pa_schema).1.
Proof.
  intros Hok k v. rewrite fit_collect_lookup.
  destruct (decide _) as [[_ Hk]|_]; [by intros [= <-]|apply Hok].
Qed.

Lemma fit_collect_dotless (pa_schema : list SchemaField)
    (renamed : gmap string string) (u : bool) :
  Forall (fun fld => contains_dot (field_name fld) = false) pa_schema ->
  fit_collect renamed u pa_schema = (renamed, u).
Proof.
  induction 1 as [|fld rest Hfld _ IH]; [done|].
  cbn [fit_collect]. by rewrite Hfld.
Qed.

Lemma fit_rename_name (renamed : gmap string string) (pa_schema : list SchemaField)
    (u : bool) (fld : SchemaField) :
  renamed_ok renamed ->
  fld ∈ pa_schema ->
  fit_rename (fit_collect renamed u pa_schema).1 fld
  = mkField (replace_dots (field_name fld)) (field_rest fld).
Proof.
  intros Hok Hin. unfold fit_rename. rewrite fit_collect_lookup.
  destruct (contains_dot (field_name fld)) eqn:Hdot.
  - rewrite decide_True; [done|]. split; [|done].
    apply list_elem_of_In, List.in_map. by apply list_elem_of_In.
  - rewrite decide_False by (intros [_ ?]; congruence).
    rewrite (renamed_ok_dotless renamed _ Hok Hdot), (replace_dots_id _ Hdot).
    by destruct fld.
Qed.

Lemma fit_prepare_schema (renamed : gmap string string) (pa_schema : list SchemaField) :
  renamed_ok renamed ->
  (fit_prepare renamed pa_schema).2.1
  = map (fun fld => mkField (replace_dots (field_name fld)) (field_rest fld)) pa_schema.
Proof.
  intros Hok. unfold fit_prepare.
  destruct (fit_collect renamed false pa_schema) as [renamed' useful] eqn:Hc.
  cbn [fst snd]. apply map_ext_in. intros fld Hin.
  replace renamed' with (fit_collect renamed false pa_schema).1 by (by rewrite Hc).
  apply fit_rename_name; [done|]. by apply list_elem_of_In.
Qed.

(** X24: [fit_prepare] returns the fields of the schema in their order, each
    with every dot of its name replaced by two underscores and nothing
    else changed; no returned name has a dot left. *)
Theorem fit_prepare_replaces_dots (renamed renamed' : gmap string string)
    (pa_schema ret_schema : list SchemaField) (is_useful : bool) :
  renamed_ok renamed ->
  fit_prepare renamed pa_schema = (renamed', (ret_schema, is_useful)) ->
  map field_name ret_schema = map replace_dots (map field_name pa_schema) /\
  map field_rest ret_schema = map field_rest pa_schema /\
  Forall (fun fld => contains_dot (field_name fld) = false) ret_schema.
Proof.
  intros Hok Hfit. pose proof (fit_prepare_schema renamed pa_schema Hok) as Hs.
  rewrite Hfit in Hs. cbn [fst snd] in Hs. subst ret_schema.
  rewrite !map_map. cbn [field_name field_rest]. repeat split; try done.
  apply Forall_map, List.Forall_forall. intros fld _. apply replace_dots_no_dot.
Qed.

(** X25: [is_useful] is [True] exactly when some field of the schema has a
    dot in its name. *)
Theorem fit_prepare_is_useful (renamed renamed' : gmap string string)
    (pa_schema ret_schema : list SchemaField) (is_useful : bool) :
  fit_prepare renamed pa_schema = (renamed', (ret_schema, is_useful)) ->
  is_useful = true <->
  exists fld, fld ∈ pa_schema /\ contains_dot (field_name fld) = true.
Proof.
  unfold fit_prepare.
  destruct (fit_collect renamed false pa_schema) as [r u] eqn:Hc.
  intros [= _ _ <-].
  replace u with (fit_collect renamed false pa_schema).2 by (by rewrite Hc).
  rewrite fit_collect_useful. cbn [orb]. rewrite existsb_exists.
  split; intros (fld & Hin & Hdot); exists fld; split; try done;
    by apply list_elem_of_In.
Qed.

(** X26: [self.renamed] only grows: after [fit_prepare] it keeps every entry
    it had and maps every dotted name of the schema to its replacement,
    and it holds no other key; it keeps the shape [renamed_ok]. *)
Theorem fit_prepare_accumulates (renamed renamed' : gmap string string)
    (pa_schema ret_schema : list SchemaField) (is_useful : bool) :
  renamed_ok renamed ->
  fit_prepare renamed pa_schema = (renamed', (ret_schema, is_useful)) ->
  renamed_ok renamed' /\
  renamed ⊆ renamed' /\
  (forall k, is_Some (renamed' !! k) <->
             is_Some (renamed !! k) \/
             (k ∈ map field_name pa_schema /\ contains_dot k = true)).
Proof.
  intros Hok. unfold fit_prepare.
  destruct (fit_collect renamed false pa_schema) as [r u] eqn:Hc.
  intros [= <- _ _].
  replace r with (fit_collect renamed false pa_schema).1 by (by rewrite Hc).
  split; [by apply fit_collect_ok|]. split.
  - apply map_subseteq_spec. intros k v Hk. rewrite fit_collect_lookup.
    destruct (decide _) as [_|_]; [|done]. destruct (Hok k v Hk) as [_ ->]. done.
  - intros k. rewrite fit_collect_lookup.
    destruct (decide _) as [Hin|Hnot]; [split; eauto|]. split; [auto|].
    intros [?|?]; [done|contradiction].
Qed.

(** X27: preparing the returned schema again changes nothing: the schema
    comes back as it is, [self.renamed] stays as it is, and [is_useful] is
    [False]. *)
Theorem fit_prepare_twice (renamed renamed' : gmap string string)
    (pa_schema ret_schema : list SchemaField) (is_useful : bool) :
  renamed_ok renamed ->
  fit_prepare renamed pa_schema = (renamed', (ret_schema, is_useful)) ->
  fit_prepare renamed' ret_schema = (renamed', (ret_schema, false)).
Proof.
  intros Hok Hfit.
  assert (Hok' : renamed_ok renamed').
  { replace renamed' with (fit_collect renamed false pa_schema).1;
      [by apply fit_collect_ok|].
    unfold fit_prepare in Hfit.
    destruct (fit_collect renamed false pa_schema). by injection Hfit as -> _ _. }
  assert (Hdotless : Forall (fun fld => contains_dot (field_name fld) = false) ret_schema).
  { pose proof (fit_prepare_schema renamed pa_schema Hok) as Hs.
    rewrite Hfit in Hs. cbn [fst snd] in Hs. subst ret_schema.
    apply Forall_map, List.Forall_forall. intros fld _. apply replace_dots_no_dot. }
  unfold fit_prepare. rewrite (fit_collect_dotless ret_schema renamed' false Hdotless).
  f_equal. f_equal. rewrite <- (map_id ret_schema) at 2.
  apply map_ext_in. intros fld Hin. unfold fit_rename.
  eapply List.Forall_forall in Hdotless; [|exact Hin].
  by rewrite (renamed_ok_dotless renamed' _ Hok' Hdotless).
Qed.

(** X28: the function [get_function_pd] returns renames the columns of a
    frame laid out like the schema to the names of the returned schema. *)
Theorem rename_feature_matches_schema (renamed renamed' : gmap string string)
    (pa_schema ret_schema : list SchemaField) (is_useful : bool) :
  fit_prepare renamed pa_schema = (renamed', (ret_schema, is_useful)) ->
  rename_feature renamed' (map field_name pa_schema) = map field_name ret_schema.
Proof.
  unfold fit_prepare.
  destruct (fit_collect renamed false pa_schema) as [r u].
  intros [= <- <- _]. unfold rename_feature. rewrite !map_map.
  apply map_ext. intros fld. unfold fit_rename.
  by destruct (r !! field_name fld).
Qed.

(** X29: renaming the columns twice is renaming them once, and a column
    without a dot keeps its name. *)
Theorem rename_feature_idempotent (renamed : gmap string string) (columns : list string) :
  renamed_ok renamed ->
  rename_feature renamed (rename_feature renamed columns) = rename_feature renamed columns /\
  (forall c, c ∈ columns -> contains_dot c = false -> c ∈ rename_feature renamed columns).
Proof.
  intros Hok. split.
  - unfold rename_feature. rewrite map_map. apply map_ext. intros c.
    destruct (renamed !! c) as [v|] eqn:Hc; simpl; [|by rewrite Hc].
    destruct (Hok c v Hc) as [_ ->].
    by rewrite (renamed_ok_dotless renamed _ Hok (replace_dots_no_dot c)).
  - intros c Hin Hdot. unfold rename_feature.
    apply list_elem_of_In, List.in_map_iff. exists c. split; [|by apply list_elem_of_In].
    by rewrite (renamed_ok_dotless renamed _ Hok Hdot).
Qed.

(** ** Concrete runs for the further properties *)

Section FurtherScenarios.
#[local] Existing Instance latin1.
#[local] Existing Instance demo_libraries.
#[local] Existing Instance demo_platform.
#[local] Existing Instance demo_audio.

Lemma firstAlphaIsUppercase_first_letter_demo :
  firstAlphaIsUppercase (mkDocument "12 Apples" ∅) "12 Apples" = Ok true /\
  firstAlphaIsUppercase (mkDocument "12 + 3" ∅) "12 + 3" = Ok false.
Proof.
  split.
  - refine (proj1 (firstAlphaIsUppercase_first_letter (mkDocument "12 Apples" ∅))
              "12 " "A"%char "pples" eq_refl _ eq_refl).
    intros i ch Hi. destruct i as [|[|[|i]]]; simpl in Hi; try discriminate;
      injection Hi as <-; reflexivity.
  - refine (proj2 (firstAlphaIsUppercase_first_letter (mkDocument "12 + 3" ∅)) _).
    intros i ch Hi. destruct i as [|[|[|[|[|[|i]]]]]]; simpl in Hi; try discriminate;
      injection Hi as <-; reflexivity.
Defined.

Lemma load_ignores_blank_unit_demo :
  load (mem_reader true [unit_A; unit_blank; unit_b])
  = load (mem_reader true [unit_A; unit_b]).
Proof.
  apply (load_ignores_blank_unit _ _ [unit_A] [unit_b] unit_blank); reflexivity.
Defined.

Lemma load_merge_concat_demo :
  load (mem_reader true [unit_A; unit_b])
  = Ok [ mkDocument (String LF (String LF " Alpha beta")) {[ "source" := "mem" ]} ].
Proof.
  apply (load_merge_concat (mem_reader true [unit_A]) (mem_reader true [unit_b])
           (mem_reader true [unit_A; unit_b]) [unit_A] [unit_b]
           (mkDocument (String LF (String LF " Alpha")) {[ "source" := "mem" ]})
           (mkDocument " beta" {[ "source" := "mem" ]}));
    reflexivity.
Defined.

Lemma load_merged_text_shape_demo :
  exists prefixes : list string,
    length prefixes = 2 /\
    Forall (fun p => p = lit_sp \/ p = lit_lf_lf_sp) prefixes /\
    String LF (String LF " Alpha beta")
    = foldr String.append EmptyString (zip_with String.append prefixes ["Alpha"; "beta"]).
Proof.
  exact (load_merged_text_shape (mem_reader true [unit_A; unit_blank; unit_b])
           [unit_A; unit_blank; unit_b]
           (mkDocument (String LF (String LF " Alpha beta")) {[ "source" := "mem" ]})
           eq_refl eq_refl eq_refl).
Defined.

Lemma load_multi_units_demo :
  exists ds : list Document,
    load (mem_reader false [unit_A; unit_blank; unit_A; unit_b]) = Ok ds /\
    ds = filter (fun d => strip (text d) <> EmptyString)
           [unit_A; unit_blank; unit_A; unit_b] /\
    sublist ds [unit_A; unit_blank; unit_A; unit_b] /\
    (forall d, d ∈ ds <->
               d ∈ [unit_A; unit_blank; unit_A; unit_b] /\ strip (text d) <> EmptyString).
Proof.
  exact (load_multi_units (mem_reader false [unit_A; unit_blank; unit_A; unit_b])
           [unit_A; unit_blank; unit_A; unit_b] eq_refl eq_refl).
Defined.

Lemma PDFReader_load_file_pages_demo :
  length [ mkDocument "Hello world." {[ "page_label" := "1"; "source" := "hello.pdf" ]};
           mkDocument "continued text" {[ "page_label" := "2"; "source" := "hello.pdf" ]} ]
  = length (pdf_pages hello_pdf).
Proof.
  exact (proj1 (PDFReader_load_file_pages "hello.pdf" hello_pdf _ eq_refl eq_refl)).
Defined.

Lemma PDFReader_multi_page_labels_demo :
  Forall (fun d => strip (text d) <> EmptyString /\
                   metadata d !! "source" = Some "hello.pdf" /\
                   is_Some (metadata d !! "page_label"))
    [ mkDocument "Hello world." {[ "page_label" := "1"; "source" := "hello.pdf" ]};
      mkDocument "continued text" {[ "page_label" := "2"; "source" := "hello.pdf" ]} ].
Proof.
  exact (proj2 (PDFReader_multi_page_labels "hello.pdf" str_LF _ eq_refl)).
Defined.

Lemma adapters_record_source_demo :
  Forall (fun d => metadata d !! "source" = Some "a.jpg")
    [ mkDocument "Scan of a.jpg" {[ "source" := "a.jpg" ]} ].
Proof.
  exact (adapters_record_source ImageReader "a.jpg"
           (ImageReader_init "a.jpg" true str_LF false) _ eq_refl eq_refl).
Defined.

Lemma default_run_one_record_per_file_demo :
  exists rows,
    outcome (read_from_directory None (Some ["hello.pdf"; "notes.txt"; "a.jpg"])
               no_filters None None) = Ok rows /\
    map out_metadata rows
    = [ {[ "source" := "a.jpg" ]}; {[ "source" := "hello.pdf" ]} ].
Proof.
  assert (Hrun : exists rows,
             outcome (read_from_directory None (Some ["hello.pdf"; "notes.txt"; "a.jpg"])
                        no_filters None None) = Ok rows)
    by (eexists; vm_compute; reflexivity).
  destruct Hrun as [rows Hrows]. exists rows. split; [exact Hrows|].
  assert (Hres : outcome (resolve_files None (Some ["hello.pdf"; "notes.txt"; "a.jpg"])
                            no_filters) = Ok ["a.jpg"; "notes.txt"; "hello.pdf"])
    by (vm_compute; reflexivity).
  rewrite (default_run_one_record_per_file _ _ _ _ _ rows Hres Hrows).
  vm_compute. reflexivity.
Defined.

Lemma empty_file_set_returns_early_demo :
  outcome (read_from_directory None (Some ["missing.pdf"]) no_filters (Some 0%Z) None)
  = Ok [].
Proof.
  apply (empty_file_set_returns_early None (Some ["missing.pdf"]) no_filters (Some 0%Z) None).
  vm_compute. reflexivity.
Defined.

Lemma no_input_raises_TypeError_demo :
  read_from_directory None (Some []) no_filters None None = Run [] (Raise TypeError).
Proof. apply no_input_raises_TypeError. by right. Defined.

Lemma directories_traversed_in_order_demo :
  resolve_files (Some (inr ["docs"; "other"; "docs"])) None no_filters
  = Run [EvGetFiles "docs"; EvGetFiles "other"; EvGetFiles "docs"]
        (Ok ["notes.txt"; "hello.pdf"]).
Proof.
  rewrite (directories_traversed_in_order (inr ["docs"; "other"; "docs"]) None no_filters)
    by (by left).
  vm_compute. reflexivity.
Defined.

Lemma unsupported_files_contribute_nothing_demo :
  outcome (read_from_directory None (Some ["notes.txt"]) no_filters None None) = Ok [].
Proof.
  apply (unsupported_files_contribute_nothing None (Some ["notes.txt"]) no_filters None None
           ["notes.txt"]).
  - vm_compute. reflexivity.
  - intros f Hf. apply list_elem_of_singleton in Hf. rewrite Hf. split; reflexivity.
  - reflexivity.
Defined.

Lemma nonpositive_bound_raises_demo :
  outcome (read_from_directory None (Some ["hello.pdf"]) no_filters (Some 0%Z) None)
  = Raise ValueError.
Proof.
  apply (nonpositive_bound_raises None (Some ["hello.pdf"]) no_filters 0%Z None ["hello.pdf"]).
  - vm_compute. reflexivity.
  - discriminate.
  - vm_compute. reflexivity.
  - lia.
Defined.

Lemma installer_failure_aborts_demo :
  outcome (read_from_directory (PF:=offline_platform) None (Some ["hello.pdf"])
             no_filters None None)
  = Raise (LibraryError "pip").
Proof.
  apply (installer_failure_aborts (PF:=offline_platform) None (Some ["hello.pdf"])
           no_filters None None ["hello.pdf"]); vm_compute; reflexivity.
Defined.

Lemma dispatch_progress_demo :
  count_occ event_eq_dec (log (dispatch None None ["hello.pdf"; "a.jpg"])) EvUpdate = 2.
Proof.
  assert (Hok : exists rows, outcome (dispatch None None ["hello.pdf"; "a.jpg"]) = Ok rows)
    by (eexists; vm_compute; reflexivity).
  destruct Hok as [rows Hrows].
  exact (proj2 (proj2 (proj2 (dispatch_progress None None ["hello.pdf"; "a.jpg"])))
           rows Hrows).
Defined.

Lemma run_setup_ignores_loaders_demo :
  setup_runs PDFReader
    (log (read_from_directory None (Some ["hello.pdf"; "bad.pdf"]) no_filters None
            (Some pdf_override))) = 1.
Proof.
  rewrite (run_setup_ignores_loaders None (Some ["hello.pdf"; "bad.pdf"]) no_filters None
             (Some pdf_override) ["bad.pdf"; "hello.pdf"] PDFReader);
    vm_compute; reflexivity.
Defined.

Lemma temp_dir_removed_on_every_exit_demo :
  last (ylog (read_youtube_audio (inr ["u1"; "bad"]) (Some "nodir") None))
  = Some (YtRmtree "/tmp/tmpyt").
Proof.
  refine (proj1 (proj2 (temp_dir_removed_on_every_exit (inr ["u1"; "bad"])
                          (Some "nodir") None _))).
  intros d [= <-]. reflexivity.
Defined.

Lemma caller_directory_kept_demo :
  Forall (fun e => match e with
                   | YtMkdtemp _ | YtRmtree _ => False
                   | YtDownload _ dir => dir = "audio"
                   | YtTranscribe _ => True
                   end)
         (ylog (read_youtube_audio (inl "u1") (Some "audio") None)).
Proof. apply caller_directory_kept. reflexivity. Defined.

Lemma one_record_per_distinct_url_demo :
  exists docs srcs,
    yout (read_youtube_audio (inr ["u1"; "u2"; "u1"]) None None) = Ok docs /\
    map out_source docs = map Some srcs /\ NoDup srcs /\ length docs <= 3.
Proof.
  assert (Hrun : exists docs, yout (read_youtube_audio (inr ["u1"; "u2"; "u1"]) None None)
                              = Ok docs) by (eexists; vm_compute; reflexivity).
  destruct Hrun as [docs Hdocs].
  destruct (one_record_per_distinct_url (inr ["u1"; "u2"; "u1"]) None None docs Hdocs)
    as (srcs & Hsrc & Hnd & _ & Hlen).
  exists docs, srcs. auto.
Defined.

Lemma blobs_paired_with_reversed_urls_demo :
  exists model,
    whisper_model None = Ok model /\
    Forall2 (fun (up : string * string) (row : OutDict) =>
               exists lang,
                 model (snd up) = Ok (out_text row, lang) /\
                 out_metadata row = {[ "source" := fst up; "language" := lang ]})
            [("u2", "audio/u1.m4a"); ("u1", "audio/u2.m4a")]
            [ mkOutDict "speech in audio/u1.m4a" {[ "source" := "u2"; "language" := "en" ]};
              mkOutDict "speech in audio/u2.m4a" {[ "source" := "u1"; "language" := "en" ]} ].
Proof.
  assert (Hnd : NoDup ["u1"; "u2"]).
  { apply NoDup_cons. split; [|apply NoDup_singleton].
    intros Hin. apply list_elem_of_singleton in Hin. discriminate. }
  exact (blobs_paired_with_reversed_urls (AP:=demo_audio) (inr ["u1"; "u2"])
           (Some "audio") None ["audio/u1.m4a"; "audio/u2.m4a"]
           [ mkOutDict "speech in audio/u1.m4a" {[ "source" := "u2"; "language" := "en" ]};
             mkOutDict "speech in audio/u2.m4a" {[ "source" := "u1"; "language" := "en" ]} ]
           Hnd eq_refl eq_refl eq_refl).
Defined.

Lemma fit_prepare_replaces_dots_demo :
  map field_name (fit_prepare ∅ demo_schema).2.1 = ["user__id"; "age"; "a__b__c"].
Proof.
  destruct (fit_prepare_replaces_dots ∅ (fit_prepare ∅ demo_schema).1 demo_schema
              (fit_prepare ∅ demo_schema).2.1 (fit_prepare ∅ demo_schema).2.2
              renamed_ok_empty eq_refl) as (Hnames & _ & _).
  rewrite Hnames. reflexivity.
Defined.

Lemma fit_prepare_is_useful_demo :
  exists fld, fld ∈ demo_schema /\ contains_dot (field_name fld) = true.
Proof.
  exact (proj1 (fit_prepare_is_useful ∅ (fit_prepare ∅ demo_schema).1 demo_schema
                  (fit_prepare ∅ demo_schema).2.1 true eq_refl) eq_refl).
Defined.

Lemma fit_prepare_accumulates_demo :
  renamed_ok (fit_prepare ∅ demo_schema).1.
Proof.
  exact (proj1 (fit_prepare_accumulates ∅ (fit_prepare ∅ demo_schema).1 demo_schema
                  (fit_prepare ∅ demo_schema).2.1 (fit_prepare ∅ demo_schema).2.2
                  renamed_ok_empty eq_refl)).
Defined.

Lemma fit_prepare_twice_demo :
  fit_prepare (fit_prepare ∅ demo_schema).1 (fit_prepare ∅ demo_schema).2.1
  = ((fit_prepare ∅ demo_schema).1, ((fit_prepare ∅ demo_schema).2.1, false)).
Proof.
  apply (fit_prepare_twice ∅ (fit_prepare ∅ demo_schema).1 demo_schema
           (fit_prepare ∅ demo_schema).2.1 (fit_prepare ∅ demo_schema).2.2
           renamed_ok_empty eq_refl).
Defined.

Lemma rename_feature_matches_schema_demo :
  rename_feature (fit_prepare ∅ demo_schema).1 ["user.id"; "age"; "a.b.c"]
  = ["user__id"; "age"; "a__b__c"].
Proof.
  rewrite (rename_feature_matches_schema ∅ (fit_prepare ∅ demo_schema).1 demo_schema
             (fit_prepare ∅ demo_schema).2.1 (fit_prepare ∅ demo_schema).2.2 eq_refl).
  reflexivity.
Defined.

Lemma rename_feature_idempotent_demo :
  rename_feature (fit_prepare ∅ demo_schema).1
    (rename_feature (fit_prepare ∅ demo_schema).1 ["user.id"; "age"])
  = rename_feature (fit_prepare ∅ demo_schema).1 ["user.id"; "age"].
Proof.
  refine (proj1 (rename_feature_idempotent (fit_prepare ∅ demo_schema).1
                   ["user.id"; "age"] _)).
  exact (fit_collect_ok demo_schema ∅ false renamed_ok_empty).
Defined.
End FurtherScenarios.
